(** * ListCommands: command discovery, descriptor store and tree printing

    A shallow embedding of the command-listing module of the CLI
    (the TypeScript module exporting [ListCommands]) together with the
    properties of its descriptor store, its help-text range extractor, its
    recursive discoverer and its tree printer.

    Conventions of the embedding:
    - a JavaScript string is a [string]; its characters stand for code units;
    - [string | undefined] and [string | null] are [option string];
    - an array is a [list]; an index returned by [findIndex] is a [Z]
      (it is [-1] when nothing is found);
    - the module-level variables [_dtos] and [_options], the calls of [Echo]
      and of the help-text provider, and the cache file make up an explicit [World] that every
      effectful function takes and returns;
    - [shell.exit] ends the run: effectful functions return an [Outcome];
    - the two recursive traversals take a fuel argument, [None] meaning that
      the fuel ran out before the traversal was finished. *)

From Stdlib Require Import String Ascii List ZArith Bool Lia DecimalString.
From Stdlib Require Import DecimalZ.
Import ListNotations.
Local Open Scope string_scope.
Local Open Scope list_scope.

Set Implicit Arguments.

(** ** JavaScript strings and arrays *)

Section JsPrimitives.

(** The code units 9 and 10. *)
Definition TAB : string := String (ascii_of_nat 9) EmptyString.
Definition LF : string := String (ascii_of_nat 10) EmptyString.

(** [s.includes(sub)]: [sub] occurs in [s] at some position. *)
Fixpoint includes (s sub : string) : bool :=
  if String.prefix sub s then true
  else match s with
       | EmptyString => false
       | String _ rest => includes rest sub
       end.

(** [s.split(sep)] for a non-empty [sep], scanning left to right.
    [skip] counts the code units of a separator that was just matched and
    is still to be stepped over; [cur] is the piece being collected. *)
Fixpoint split_from (sep : string) (skip : nat) (cur s : string)
  : list string :=
  match s with
  | EmptyString => [cur]
  | String c rest =>
      match skip with
      | S k => split_from sep k cur rest
      | O =>
          if String.prefix sep s
          then cur :: split_from sep (String.length sep - 1) EmptyString rest
          else split_from sep 0 (cur ++ String c EmptyString) rest
      end
  end.

(** [s.split(sep)]; with the empty separator the result is the list of
    the code units of [s]. *)
Definition split (s sep : string) : list string :=
  match sep with
  | EmptyString =>
      map (fun c => String c EmptyString) (list_ascii_of_string s)
  | _ => split_from sep 0 EmptyString s
  end.

(** [" ".repeat(n)] *)
Fixpoint repeat_space (n : nat) : string :=
  match n with
  | O => EmptyString
  | S k => " " ++ repeat_space k
  end.

Variable A : Type.

(** [xs.findIndex(p)]: the index of the first element satisfying [p],
    or [-1]. *)
Fixpoint findIndex (p : A -> bool) (xs : list A) : Z :=
  match xs with
  | [] => (-1)%Z
  | x :: rest =>
      if p x then 0%Z
      else let i := findIndex p rest in
           if (i <? 0)%Z then (-1)%Z else (i + 1)%Z
  end.

(** A bound of [slice], made relative to an array of length [len]:
    a negative bound counts from the end, and bounds are clamped. *)
Definition relative_index (len k : Z) : Z :=
  if (k <? 0)%Z then Z.max (len + k) 0 else Z.min k len.

(** [xs.slice(start, stop)] *)
Definition slice (xs : list A) (start stop : Z) : list A :=
  let len := Z.of_nat (List.length xs) in
  let from := relative_index len start in
  let to := relative_index len stop in
  firstn (Z.to_nat (to - from)) (skipn (Z.to_nat from) xs).

(** [xs.pop()]: the last element (or [undefined]) and the shortened
    array. *)
Fixpoint pop (xs : list A) : option A * list A :=
  match xs with
  | [] => (None, [])
  | [x] => (Some x, [])
  | x :: rest => let (r, rest') := pop rest in (r, x :: rest')
  end.

(** [CollectionUtils.hasValues(xs)] of andculturecode-javascript-core:
    the collection holds at least one element. *)
Definition hasValues (xs : list A) : bool :=
  match xs with
  | [] => false
  | _ :: _ => true
  end.

End JsPrimitives.

(** ** Data model *)

(** [interface ParsedCommandDto] *)
Record ParsedCommandDto : Type := mkDto {
  command : string;
  options : list string;
  parent : option string
}.

(** An object literal whose properties may be missing: [{}] is [emptyObject],
    and a descriptor seen as such an object has all three properties. *)
Record PartialDto : Type := mkPartialDto {
  p_command : option string;
  p_options : option (list string);
  p_parent : option (option string)
}.

Definition emptyObject : PartialDto := mkPartialDto None None None.

Definition ownProperties (d : ParsedCommandDto) : PartialDto :=
  mkPartialDto (Some (command d)) (Some (options d)) (Some (parent d)).

(** One property of [{...a, ...b}]: the later object wins where it has the
    property, the earlier one is kept where it has not. *)
Definition spreadField (B : Type) (a b : option B) : option B :=
  match b with
  | Some v => Some v
  | None => a
  end.

(** [{...a, ...b}] *)
Definition spread (a b : PartialDto) : PartialDto :=
  mkPartialDto (spreadField (p_command a) (p_command b))
               (spreadField (p_options a) (p_options b))
               (spreadField (p_parent a) (p_parent b)).

(** [{...existing, ...updatedDto}] read at the type [ParsedCommandDto] that
    [_dtos.push] expects.  [updatedDto] has every property of the interface,
    so every property of the merged object is present (lemma
    [spread_ownProperties]); the second argument of [readField] is never
    used. *)
Definition readField (B : Type) (merged : option B) (declared : B) : B :=
  match merged with
  | Some v => v
  | None => declared
  end.

Definition mergeDto (existing : option ParsedCommandDto)
           (updatedDto : ParsedCommandDto) : ParsedCommandDto :=
  let existing :=
    match existing with
    | Some e => ownProperties e
    | None => emptyObject
    end in
  let merged := spread existing (ownProperties updatedDto) in
  mkDto (readField (p_command merged) (command updatedDto))
        (readField (p_options merged) (options updatedDto))
        (readField (p_parent merged) (parent updatedDto)).

(** ** Descriptor store *)

(** [findByCommand] of [_addOrUpdateDto] *)
Definition findByCommand (updatedDto existingDto : ParsedCommandDto) : bool :=
  String.eqb (command existingDto) (command updatedDto).

(** [_addOrUpdateDto], as a function of the store [_dtos] *)
Definition _addOrUpdateDto (updatedDto : ParsedCommandDto)
           (_dtos : list ParsedCommandDto) : list ParsedCommandDto :=
  let existing := find (findByCommand updatedDto) _dtos in
  let _dtos :=
    filter (fun existing => negb (findByCommand updatedDto existing)) _dtos in
  _dtos ++ [mergeDto existing updatedDto].

(** ** Descriptor building *)

(** [_buildDto].  The two [pop] calls run when [commands] has at least two
    elements, so the branches for [undefined] are not reached. *)
Definition _buildDto (fullCommand : string) (options : list string)
  : ParsedCommandDto :=
  let commands := split fullCommand " " in
  let hasNestedCommands := (1 <? List.length commands)%nat in
  if hasNestedCommands then
    match pop commands with
    | (Some command, commands) =>
        match pop commands with
        | (Some parent, _) => mkDto command options (Some parent)
        | (None, _) => mkDto command options None
        end
    | (None, _) => mkDto fullCommand options None
    end
  else mkDto fullCommand options None.

(** ** Options *)

(** [Required<ListCommandsOptions>] *)
Record ListCommandsOptions : Type := mkOptions {
  includeHelp : bool;
  indent : nat;
  useColor : bool;
  prefix : string;
  skipCache : bool
}.

(** [Partial<ListCommandsOptions>] *)
Record PartialOptions : Type := mkPartialOptions {
  o_includeHelp : option bool;
  o_indent : option nat;
  o_useColor : option bool;
  o_prefix : option string;
  o_skipCache : option bool
}.

(** [options.indent], for the places where [indent] names an argument *)
Definition indentStep (o : ListCommandsOptions) : nat := indent o.

Definition DEFAULT_INDENT : nat := 4.

Definition DEFAULT_OPTIONS : ListCommandsOptions :=
  mkOptions false DEFAULT_INDENT true "- [ ] " false.

Definition optionProperties (o : ListCommandsOptions) : PartialOptions :=
  mkPartialOptions (Some (includeHelp o)) (Some (indent o))
                   (Some (useColor o)) (Some (prefix o)) (Some (skipCache o)).

(** [{...base, ...updated}] over a complete [base] *)
Definition spreadOptions (base : ListCommandsOptions)
           (updated : PartialOptions) : ListCommandsOptions :=
  mkOptions (readField (o_includeHelp updated) (includeHelp base))
            (readField (o_indent updated) (indent base))
            (readField (o_useColor updated) (useColor base))
            (readField (o_prefix updated) (prefix base))
            (readField (o_skipCache updated) (skipCache base)).

(** ** The world of a run *)

(** What a run does to the outside, in the order it does it: a call
    [Echo.message(text)] or [Echo.message(text, flag)], [Echo.error(text)],
    [Echo.success(text)], or a call [shell.exec(command, { silent: true })]
    of the help-text provider. *)
Inductive Effect : Type :=
| Echo_message (text : string) (flag : option bool)
| Echo_error (text : string)
| Echo_success (text : string)
| Shell_exec (command : string).

(** The file at [CACHE_PATH]: absent, present but failing to be read (with
    the text of the error), or present with its contents. *)
Inductive CacheFile : Type :=
| FileMissing
| FileUnreadable (error : string)
| FileContents (text : string).

Record World : Type := mkWorld {
  _dtos : list ParsedCommandDto;
  _options : ListCommandsOptions;
  effects : list Effect;
  cacheFile : CacheFile
}.

(** What a function leaves behind: it returned, or [shell.exit(code)]
    ended the process. *)
Inductive Outcome (R : Type) : Type :=
| Returned (result : R) (w : World)
| Exited (code : Z) (w : World).

Arguments Exited {R} code w.

Definition worldOf (R : Type) (o : Outcome R) : World :=
  match o with
  | Returned _ w => w
  | Exited _ w => w
  end.

Definition emit (e : Effect) (w : World) : World :=
  mkWorld (_dtos w) (_options w) (effects w ++ [e]) (cacheFile w).

Definition setDtos (dtos : list ParsedCommandDto) (w : World) : World :=
  mkWorld dtos (_options w) (effects w) (cacheFile w).

(** [xs.forEach(body)] for a body that may end the process or run out of
    fuel: the remaining elements are then not visited. *)
Fixpoint forEach (A : Type) (body : A -> World -> option (Outcome unit))
         (xs : list A) (w : World) : option (Outcome unit) :=
  match xs with
  | [] => Some (Returned tt w)
  | x :: rest =>
      match body x w with
      | Some (Returned _ w) => forEach body rest w
      | other => other
      end
  end.

(** [xs.forEach(body)] for a body that only echoes (or runs out of fuel). *)
Fixpoint forEachEcho (A : Type) (body : A -> World -> option World)
         (xs : list A) (w : World) : option World :=
  match xs with
  | [] => Some w
  | x :: rest =>
      match body x w with
      | Some w => forEachEcho body rest w
      | None => None
      end
  end.

(** ** What the module imports *)

(** The result of [shell.exec(command, { silent: true })] *)
Record ExecResult : Type := mkExec {
  code : Z;
  stderr : string;
  stdout : string
}.

(** Constants and functions of modules that the listing module imports and
    that are taken as given: [BIN_NAME] (from [PackageConfig] and
    [Constants]), [Options.Help], [CommandRegistry.ALIAS_PREFIX],
    [CACHE_PATH], the four [Formatters], [shell.exec], [JSON.parse] on the
    contents of the cache file ([inl] carries the text of the error thrown),
    and the test that [StringUtils.isEmpty] of
    andculturecode-javascript-core applies to a string. *)
Class Imports : Type := {
  BIN_NAME : string;
  helpFlag : string;
  OPTIONS_END_STRING : string;
  ALIAS_PREFIX : string;
  CACHE_PATH : string;
  green : string -> string;
  yellow : string -> string;
  purple : string -> string;
  red : string -> string;
  shell_exec : string -> ExecResult;
  JSON_parse : string -> string + list ParsedCommandDto;
  emptyText : string -> bool
}.

(** ** The listing module *)

Section ListCommands.

Context {imports : Imports}.

Definition COMMANDS_START_STRING : string := "Commands:".
Definition COMMANDS_END_STRING : string := "help [command]".
Definition FILTERED_STRINGS : list string := [TAB; ALIAS_PREFIX].
Definition OPTIONS_START_STRING : string := "Options:".

(** [StringUtils.isEmpty(value)]: [null], [undefined], or a string that
    the library regards as empty. *)
Definition isEmpty (value : option string) : bool :=
  match value with
  | None => true
  | Some s => emptyText s
  end.

(** [StringUtils.hasValue(value)] *)
Definition hasValue (value : option string) : bool := negb (isEmpty value).

(** A value inside a template literal: [undefined] reads "undefined". *)
Definition interpolate (value : option string) : string :=
  match value with
  | Some s => s
  | None => "undefined"
  end.

(** The elements of a [(string | undefined)[]] that are strings. *)
Fixpoint strings (xs : list (option string)) : list string :=
  match xs with
  | [] => []
  | Some s :: rest => s :: strings rest
  | None :: rest => strings rest
  end.

(** [ListCommands.cmd] *)
Definition cmd (command : option string) : string :=
  if isEmpty command then BIN_NAME ++ " " ++ helpFlag
  else BIN_NAME ++ " " ++ interpolate command ++ " " ++ helpFlag.

(** [ListCommands.setOptions], as a function of [_options] *)
Definition setOptions (updated : PartialOptions)
           (_options : ListCommandsOptions) : ListCommandsOptions :=
  spreadOptions
    (spreadOptions DEFAULT_OPTIONS (optionProperties _options)) updated.

(** [ListCommands.resetCache] *)
Definition resetCache (w : World) : World :=
  let w :=
    mkWorld (_dtos w)
            (setOptions (mkPartialOptions None None None None (Some true))
                        (_options w))
            (effects w) (cacheFile w) in
  setDtos [] w.

(** [_parseOutputByRange].  [hasValue] rejects [undefined], so the array
    it filters holds strings only, which [strings] reads off. *)
Definition _parseOutputByRange (_options : ListCommandsOptions)
           (output startPattern endPattern : string) : list string :=
  let lines := split output LF in
  let startIndex :=
    findIndex (fun line => includes line startPattern) lines in
  let endIndex := findIndex (fun line => includes line endPattern) lines in
  let lines :=
    strings
      (filter hasValue
         (map (fun line => nth_error (split line "  ") 1)
            (filter
               (fun line =>
                  negb (existsb (fun filteredString =>
                                   includes line filteredString)
                                FILTERED_STRINGS))
               (slice lines (startIndex + 1) (endIndex + 1))))) in
  if negb (includeHelp _options) then
    filter (fun line =>
              negb (String.eqb line OPTIONS_END_STRING)
              && negb (String.eqb line COMMANDS_END_STRING))
           lines
  else lines.

(** [_parseChildren] *)
Definition _parseChildren (_options : ListCommandsOptions)
           (output : string) : list string :=
  _parseOutputByRange _options output
                      COMMANDS_START_STRING COMMANDS_END_STRING.

(** [_parseOptions] *)
Definition _parseOptions (_options : ListCommandsOptions)
           (output : string) : list string :=
  _parseOutputByRange _options output
                      OPTIONS_START_STRING OPTIONS_END_STRING.

(** [_echoFormatted] *)
Definition _echoFormatted (value : string) (indent : nat) (w : World)
  : World :=
  emit (Echo_message
          (repeat_space indent ++ prefix (_options w) ++ value)
          (Some false))
       w.

(** The number [n] inside a template literal *)
Definition showNumber (n : Z) : string := NilZero.string_of_int (Z.to_int n).

(** [_execCliHelp] *)
Definition _execCliHelp (command : option string) (w : World)
  : Outcome string :=
  let helpCommand := cmd command in
  let result := shell_exec helpCommand in
  let w := emit (Shell_exec helpCommand) w in
  let coloredHelpCommand := purple helpCommand in
  let w :=
    emit (Echo_message
            ("Running " ++ coloredHelpCommand
               ++ " for commands and options...") None) w in
  if negb (code result =? 0)%Z || hasValue (Some (stderr result)) then
    let coloredError :=
      red (if hasValue (Some (stderr result))
           then LF ++ LF ++ stderr result
           else "exited with code " ++ showNumber (code result)) in
    let w :=
      emit (Echo_error
              ("Failed to run " ++ coloredHelpCommand ++ ": "
                 ++ coloredError)) w in
    Exited 1 w
  else Returned (stdout result) w.

(** [_getChildren], as a function of the store *)
Definition _getChildren (parentDto : ParsedCommandDto)
           (_dtos : list ParsedCommandDto) : list ParsedCommandDto :=
  filter (fun child =>
            match parent child with
            | Some p => String.eqb p (command parentDto)
            | None => false
            end)
         _dtos.

(** [command.parent == null] *)
Definition hasNoParent (command : ParsedCommandDto) : bool :=
  match parent command with
  | None => true
  | Some _ => false
  end.

(** [_getParentCommandsOrDefault] *)
Definition _getParentCommandsOrDefault (commands : list ParsedCommandDto)
  : list ParsedCommandDto :=
  let parents := filter hasNoParent commands in
  if hasValues parents then parents else commands.

(** [_parseChildrenAndOptions].  After the loop, [isEmpty] has returned
    for an [undefined] command, so [_buildDto] receives a string. *)
Fixpoint _parseChildrenAndOptions (fuel : nat) (command : option string)
         (w : World) : option (Outcome unit) :=
  match fuel with
  | O => None
  | S fuel =>
      match _execCliHelp command w with
      | Exited c w => Some (Exited c w)
      | Returned stdout w =>
          let children := _parseChildren (_options w) stdout in
          match
            forEach
              (fun (child : string) w =>
                 if hasValue command then
                   _parseChildrenAndOptions
                     fuel (Some (interpolate command ++ " " ++ child)%string) w
                 else _parseChildrenAndOptions fuel (Some child) w)
              children w
          with
          | Some (Returned _ w) =>
              if isEmpty command then Some (Returned tt w)
              else
                match command with
                | Some fullCommand =>
                    let options := _parseOptions (_options w) stdout in
                    let dto := _buildDto fullCommand options in
                    Some (Returned
                            tt (setDtos (_addOrUpdateDto dto (_dtos w)) w))
                | None => Some (Returned tt w)
                end
          | other => other
          end
      end
  end.

(** [ListCommands.parse] *)
Definition parse (fuel : nat) (w : World) : option (Outcome unit) :=
  _parseChildrenAndOptions fuel None w.

(** [ListCommands.readCachedFile].  [File.exists(CACHE_PATH)] holds unless
    the file is missing; [caught] is the [catch] block, entered when
    [fs.readFileSync] or [JSON.parse] throws. *)
Definition readCachedFile (w : World) : World :=
  let found (w : World) :=
    emit (Echo_message "Found command list cache, attempting to read..." None)
         w in
  let caught (error : string) (w : World) :=
    emit (Echo_error
            ("There was an error attempting to read or deserialize the file at "
               ++ CACHE_PATH ++ " - " ++ error))
         (resetCache w) in
  match cacheFile w with
  | FileMissing =>
      emit (Echo_message "No cached file found, building from scratch." None)
           (resetCache w)
  | FileUnreadable error => caught error (found w)
  | FileContents text =>
      let w := found w in
      match JSON_parse text with
      | inr dtos => setDtos dtos w
      | inl error => caught error w
      end
  end.

(** [ListCommands.parseOrReadCache] *)
Definition parseOrReadCache (fuel : nat) (w : World)
  : option (Outcome unit) :=
  if skipCache (_options w) then
    parse fuel (emit (Echo_message "Skipping cache if it exists..." None) w)
  else
    let w := readCachedFile w in
    if hasValues (_dtos w) then Some (Returned tt w)
    else parse fuel (resetCache w).

(** [ListCommands.printOption] *)
Definition printOption (option : string) (indent : nat) (w : World)
  : World :=
  let optionMessage :=
    if useColor (_options w) then yellow option else option in
  _echoFormatted optionMessage indent w.

(** [ListCommands.printOptions] *)
Definition printOptions (dto : ParsedCommandDto) (indent : nat) (w : World)
  : World :=
  fold_left (fun w option => printOption option indent w) (options dto) w.

(** [ListCommands.print] with [ListCommands.printCommand], which call
    each other; each call of [print] takes one unit of fuel. *)
Fixpoint print (fuel : nat) (dtos : list ParsedCommandDto) (indent : nat)
         (w : World) : option World :=
  match fuel with
  | O => None
  | S fuel =>
      let printCommand (dto : ParsedCommandDto) (indent : nat)
                       (w : World) : option World :=
        let commandMessage :=
          if useColor (_options w) then green (command dto)
          else command dto in
        let w := _echoFormatted commandMessage indent w in
        let w := printOptions dto (indent + indentStep (_options w)) w in
        let children := _getChildren dto (_dtos w) in
        print fuel children
              (indent + indentStep (_options w) * 2) w in
      let commandsSortedByParents := _getParentCommandsOrDefault dtos in
      forEachEcho (fun command w => printCommand command indent w)
                  commandsSortedByParents w
  end.

End ListCommands.

(** ** A stub environment

    A help-text provider for the two-level tree
    root -> deploy -> (aws-s3, azure-web-app), with formatters that tag
    their argument, used to run the definitions on concrete inputs. *)

Definition join_lines (lines : list string) : string :=
  fold_right (fun line text => (line ++ LF ++ text)%string) EmptyString lines.

Definition stubRootHelp : string :=
  join_lines
    [ "Usage: and-cli [options] [command]"
    ; ""
    ; "Options:"
    ; "  -V, --version   output the version number"
    ; "  -h, --help      display help for command"
    ; ""
    ; "Commands:"
    ; "  deploy          Deploy the application"
    ; "  help [command]  display help for command" ].

Definition stubDeployHelp : string :=
  join_lines
    [ "Usage: and-cli deploy [options] [command]"
    ; ""
    ; "Options:"
    ; "  -h, --help      display help for command"
    ; ""
    ; "Commands:"
    ; "  aws-s3          Deploy to AWS S3"
    ; "  azure-web-app   Deploy to an Azure web app"
    ; "  help [command]  display help for command" ].

Definition stubLeafHelp : string :=
  join_lines
    [ "Usage: and-cli deploy leaf [options]"
    ; ""
    ; "Options:"
    ; "  --force         Force the deployment"
    ; "  -h, --help      display help for command" ].

Definition stubExec (helpCommand : string) : ExecResult :=
  if String.eqb helpCommand "and-cli -h" then mkExec 0 "" stubRootHelp
  else if String.eqb helpCommand "and-cli deploy -h"
  then mkExec 0 "" stubDeployHelp
  else if String.eqb helpCommand "and-cli deploy aws-s3 -h"
  then mkExec 0 "" stubLeafHelp
  else if String.eqb helpCommand "and-cli deploy azure-web-app -h"
  then mkExec 0 "" stubLeafHelp
  else mkExec 127 "command not found" "".

(** The code units that [String.prototype.trim] removes, among the first
    256. *)
Definition isWhiteSpace (c : ascii) : bool :=
  let n := nat_of_ascii c in
  ((9 <=? n) && (n <=? 13) || (n =? 32) || (n =? 160))%nat.

Definition stubEmptyText (s : string) : bool :=
  forallb isWhiteSpace (list_ascii_of_string s).

Definition stubParse (text : string) : string + list ParsedCommandDto :=
  if String.eqb text "[]" then inr []
  else inl "SyntaxError: Unexpected token"%string.

Definition stubImports : Imports :=
  {| BIN_NAME := "and-cli";
     helpFlag := "-h";
     OPTIONS_END_STRING := "-h, --help";
     ALIAS_PREFIX := "(alias)";
     CACHE_PATH := "~/.and-cli/commands.and-cli.json";
     green := fun s => ("<green>" ++ s)%string;
     yellow := fun s => ("<yellow>" ++ s)%string;
     purple := fun s => ("<purple>" ++ s)%string;
     red := fun s => ("<red>" ++ s)%string;
     shell_exec := stubExec;
     JSON_parse := stubParse;
     emptyText := stubEmptyText |}.

Definition emptyWorld : World :=
  mkWorld [] DEFAULT_OPTIONS [] FileMissing.

(** A provider that exits with code 0 and writes only white space to its
    error stream, under a [StringUtils] whose test on strings is the
    library's: empty after [String.prototype.trim]. *)
Definition blankError : string := (" " ++ LF ++ TAB)%string.

Definition blankErrorImports : Imports :=
  {| BIN_NAME := "and-cli";
     helpFlag := "-h";
     OPTIONS_END_STRING := "-h, --help";
     ALIAS_PREFIX := "(alias)";
     CACHE_PATH := "~/.and-cli/commands.and-cli.json";
     green := fun s => ("<green>" ++ s)%string;
     yellow := fun s => ("<yellow>" ++ s)%string;
     purple := fun s => ("<purple>" ++ s)%string;
     red := fun s => ("<red>" ++ s)%string;
     shell_exec := fun _ => mkExec 0 blankError "HELP TEXT";
     JSON_parse := stubParse;
     emptyText := stubEmptyText |}.

(** A provider that exits with code 2 and writes nothing. *)
Definition silentFailureImports : Imports :=
  {| BIN_NAME := "and-cli";
     helpFlag := "-h";
     OPTIONS_END_STRING := "-h, --help";
     ALIAS_PREFIX := "(alias)";
     CACHE_PATH := "~/.and-cli/commands.and-cli.json";
     green := fun s => ("<green>" ++ s)%string;
     yellow := fun s => ("<yellow>" ++ s)%string;
     purple := fun s => ("<purple>" ++ s)%string;
     red := fun s => ("<red>" ++ s)%string;
     shell_exec := fun _ => mkExec 2 "" "";
     JSON_parse := stubParse;
     emptyText := stubEmptyText |}.

(** ** Vocabulary of the properties *)

(** The text of the range-extraction example. *)
Definition exampleHelp : string :=
  ("Commands:" ++ LF ++ "  foo  desc" ++ LF ++ "  bar  desc" ++ LF
     ++ "help [command]" ++ LF)%string.

(** The world after a failed help invocation for [command]: the provider
    was called once, the invocation was announced, and the failure was
    reported with the help command and with the error stream or, when the
    error stream has no value, with the exit code. *)
Definition failedHelp {imports : Imports} (command : option string)
           (w : World) : World :=
  let result := shell_exec (cmd command) in
  mkWorld (_dtos w) (_options w)
          (effects w
             ++ [ Shell_exec (cmd command)
                ; Echo_message
                    ("Running " ++ purple (cmd command)
                       ++ " for commands and options...") None
                ; Echo_error
                    ("Failed to run " ++ purple (cmd command) ++ ": "
                       ++ red (if hasValue (Some (stderr result))
                               then LF ++ LF ++ stderr result
                               else "exited with code "
                                      ++ showNumber (code result))) ])
          (cacheFile w).

(** What is reported when reading the cache file fails ([None] when the
    file is read and deserialized). *)
Definition cacheReadFailure {imports : Imports} (file : CacheFile)
  : option (list Effect) :=
  let attempted (error : string) :=
    [ Echo_message "Found command list cache, attempting to read..." None
    ; Echo_error
        ("There was an error attempting to read or deserialize the file at "
           ++ CACHE_PATH ++ " - " ++ error) ] in
  match file with
  | FileMissing =>
      Some [Echo_message "No cached file found, building from scratch." None]
  | FileUnreadable error => Some (attempted error)
  | FileContents text =>
      match JSON_parse text with
      | inl error => Some (attempted error)
      | inr _ => None
      end
  end.

(** The world from which discovery restarts after a failed read. *)
Definition recovered (report : list Effect) (w : World) : World :=
  let o := _options w in
  mkWorld []
          (mkOptions (includeHelp o) (indent o) (useColor o) (prefix o) true)
          (effects w ++ report) (cacheFile w).

(** The help text that the provider returns for [command]. *)
Definition helpText {imports : Imports} (command : option string) : string :=
  stdout (shell_exec (cmd command)).

(** The path that the discoverer hands to itself for a child of
    [command]. *)
Definition childPath {imports : Imports} (command : option string)
           (child : string) : string :=
  if hasValue command then (interpolate command ++ " " ++ child)%string
  else child.

(** [discovered o command path]: [path] is the path of a descendant of
    [command], found by walking down the "Commands:" ranges of the help
    texts (read under the options [o]). *)
Inductive discovered {imports : Imports} (o : ListCommandsOptions)
  : option string -> string -> Prop :=
| discovered_child (command : option string) (child : string) :
    In child (_parseChildren o (helpText command)) ->
    discovered o command (childPath command child)
| discovered_below (command : option string) (path path' : string) :
    discovered o command path ->
    discovered o (Some path) path' ->
    discovered o command path'.

(** The paths that a discovery invoked with [command] may record: the
    command itself, when it is a path, and its descendants. *)
Definition recordable {imports : Imports} (o : ListCommandsOptions)
           (command : option string) (path : string) : Prop :=
  command = Some path \/ discovered o command path.

(** [records o command store store']: [store'] comes from [store] by
    upserts of descriptors, each built from a recordable path that is not
    empty and from the "Options:" range of the help text of that path. *)
Inductive records {imports : Imports} (o : ListCommandsOptions)
          (command : option string)
  : list ParsedCommandDto -> list ParsedCommandDto -> Prop :=
| records_nothing (store : list ParsedCommandDto) :
    records o command store store
| records_path (store store' : list ParsedCommandDto) (path : string) :
    records o command store store' ->
    recordable o command path ->
    isEmpty (Some path) = false ->
    records o command store
            (_addOrUpdateDto
               (_buildDto path (_parseOptions o (helpText (Some path))))
               store').

(** [ListCommands.printCommand], given the fuel left for its call of
    [print]. *)
Definition printCommand {imports : Imports} (fuel : nat)
           (dto : ParsedCommandDto) (indent : nat) (w : World)
  : option World :=
  let commandMessage :=
    if useColor (_options w) then green (command dto) else command dto in
  let w := _echoFormatted commandMessage indent w in
  let w := printOptions dto (indent + indentStep (_options w)) w in
  let children := _getChildren dto (_dtos w) in
  print fuel children (indent + indentStep (_options w) * 2) w.

(** The line that [printCommand] echoes for the command itself. *)
Definition commandLine {imports : Imports} (o : ListCommandsOptions)
           (dto : ParsedCommandDto) (indent : nat) : Effect :=
  Echo_message
    (repeat_space indent ++ prefix o
       ++ (if useColor o then green (command dto) else command dto))
    (Some false).

(** [w] after some more effects. *)
Definition withEffects (added : list Effect) (w : World) : World :=
  mkWorld (_dtos w) (_options w) (effects w ++ added) (cacheFile w).

(** The output of a printing is made of one block per root, in the order of
    the roots, and the block of a root starts with the line of its
    command. *)
Definition blocksOf {imports : Imports} (o : ListCommandsOptions)
           (indent : nat) (roots : list ParsedCommandDto)
           (blocks : list (list Effect)) : Prop :=
  Forall2 (fun dto block =>
             exists rest, block = commandLine o dto indent :: rest)
          roots blocks.

(** A store with a cycle in its parent relation: "a" is its own parent. *)
Definition cyclicStore : list ParsedCommandDto :=
  [mkDto "a" [] (Some "a"); mkDto "b" [] (Some "a")].

(** * The rest of the module *)

(** ** Writing the cache file *)

(** What the [try] block of [saveCachedFile] does to the file at
    [CACHE_PATH]: it writes the text, or one of [shell.mkdir],
    [shell.touch] and [fs.writeFileSync] throws, with the text of the error
    and the file as the failed attempt leaves it. *)
Inductive WriteResult : Type :=
| Written
| WriteFailed (error : string) (remains : CacheFile).

(** [JSON.stringify(dtos, undefined, 4)] and the file system under
    [saveCachedFile], taken as given. *)
Class Disk : Type := {
  JSON_stringify : list ParsedCommandDto -> string;
  writeCache : string -> string -> CacheFile -> WriteResult
}.

Definition setCacheFile (file : CacheFile) (w : World) : World :=
  mkWorld (_dtos w) (_options w) (effects w) file.

Section Run.

Context {imports : Imports} {disk : Disk}.

(** [ListCommands.saveCachedFile] *)
Definition saveCachedFile (w : World) : Outcome unit :=
  let w :=
    emit (Echo_message
            ("Writing command list to cached file at " ++ CACHE_PATH ++ "...")
            None) w in
  let text := JSON_stringify (_dtos w) in
  match writeCache CACHE_PATH text (cacheFile w) with
  | Written =>
      Returned tt
               (emit (Echo_success "Cached file successfully updated.")
                     (setCacheFile (FileContents text) w))
  | WriteFailed error remains =>
      Exited 1
             (emit (Echo_error
                      ("There was an error writing to " ++ CACHE_PATH
                         ++ " - " ++ error))
                   (setCacheFile remains w))
  end.

(** [ListCommands.run]; the discovery and the printing each get [fuel]. *)
Definition run (fuel : nat) (options : PartialOptions) (w : World)
  : option (Outcome unit) :=
  let w :=
    mkWorld (_dtos w) (setOptions options (_options w)) (effects w)
            (cacheFile w) in
  match parseOrReadCache fuel w with
  | Some (Returned _ w) =>
      match print fuel (_dtos w) 0 w with
      | Some w => Some (saveCachedFile w)
      | None => None
      end
  | other => other
  end.

End Run.

(** ** Vocabulary of the further properties *)

(** The help invocation for [command] succeeds: exit code 0 and an error
    stream without a value. *)
Definition helpSucceeds {imports : Imports} (command : option string) : bool :=
  (code (shell_exec (cmd command)) =? 0)%Z
  && negb (hasValue (Some (stderr (shell_exec (cmd command))))).

(** Below [command] every help invocation succeeds and the tree of
    commands is less than [depth] levels deep. *)
Fixpoint exploresWithin {imports : Imports} (o : ListCommandsOptions)
         (depth : nat) (command : option string) : bool :=
  match depth with
  | O => false
  | S depth =>
      helpSucceeds command
      && forallb (fun child =>
                    exploresWithin o depth (Some (childPath command child)))
                 (_parseChildren o (helpText command))
  end.

(** The lines that [printOptions] echoes for [dto] at [indent]. *)
Definition optionLines {imports : Imports} (o : ListCommandsOptions)
           (dto : ParsedCommandDto) (indent : nat) : list Effect :=
  map (fun option =>
         Echo_message
           (repeat_space indent ++ prefix o
              ++ (if useColor o then yellow option else option))
           (Some false))
      (options dto).

(** An effect of [_echoFormatted] at [indent] or deeper. *)
Definition formattedFrom (o : ListCommandsOptions) (indent : nat)
           (e : Effect) : Prop :=
  exists (deeper : nat) (value : string),
    e = Echo_message
          (repeat_space (indent + deeper) ++ prefix o ++ value) (Some false).

(** [later w w']: [w'] has the cache file of [w] and its effects, followed
    by more. *)
Definition later (w w' : World) : Prop :=
  cacheFile w' = cacheFile w
  /\ exists added, effects w' = effects w ++ added.

(** A provider whose every help text lists one child, "again". *)
Definition endlessHelp : string :=
  join_lines
    [ "Commands:"
    ; "  again           Once more"
    ; "  help [command]  display help for command" ].

Definition endlessImports : Imports :=
  {| BIN_NAME := "and-cli";
     helpFlag := "-h";
     OPTIONS_END_STRING := "-h, --help";
     ALIAS_PREFIX := "(alias)";
     CACHE_PATH := "~/.and-cli/commands.and-cli.json";
     green := fun s => ("<green>" ++ s)%string;
     yellow := fun s => ("<yellow>" ++ s)%string;
     purple := fun s => ("<purple>" ++ s)%string;
     red := fun s => ("<red>" ++ s)%string;
     shell_exec := fun _ => mkExec 0 "" endlessHelp;
     JSON_parse := stubParse;
     emptyText := stubEmptyText |}.

(** A disk that stores what is written, with a serializer that the stub
    [JSON_parse] does not read back, and a disk that refuses every write. *)
Definition stubDisk : Disk :=
  {| JSON_stringify := fun dtos =>
       match dtos with
       | [] => "[]"
       | _ => "[...]"
       end;
     writeCache := fun _ _ _ => Written |}.

Definition fullDisk : Disk :=
  {| JSON_stringify := fun dtos =>
       match dtos with
       | [] => "[]"
       | _ => "[...]"
       end;
     writeCache := fun _ _ file => WriteFailed "ENOSPC: no space left" file |}.

(** An environment whose [JSON.parse] reads back what [stubDisk] writes for
    the store holding "deploy" alone. *)
Definition cachedStore : list ParsedCommandDto :=
  [mkDto "deploy" ["--force"] None].

Definition cachedImports : Imports :=
  {| BIN_NAME := "and-cli";
     helpFlag := "-h";
     OPTIONS_END_STRING := "-h, --help";
     ALIAS_PREFIX := "(alias)";
     CACHE_PATH := "~/.and-cli/commands.and-cli.json";
     green := fun s => ("<green>" ++ s)%string;
     yellow := fun s => ("<yellow>" ++ s)%string;
     purple := fun s => ("<purple>" ++ s)%string;
     red := fun s => ("<red>" ++ s)%string;
     shell_exec := stubExec;
     JSON_parse := fun text =>
       if String.eqb text "[...]" then inr cachedStore else stubParse text;
     emptyText := stubEmptyText |}.

(** * The deploy commands

    The two deploy scripts: [and-cli deploy azure-web-app] and
    [and-cli deploy aws-s3].  Each keeps its arguments in variables of the
    script and talks to the outside through [shell], [echo], [azure],
    [file] and [webpackPublish]; the calls are recorded in order. *)

Module Deploy.

(** A value that is a string, [null] or [undefined]. *)
Inductive JsString : Type :=
| Undefined
| Null
| Str (s : string).

(** [v == null] *)
Definition isNullish (v : JsString) : bool :=
  match v with
  | Str _ => false
  | _ => true
  end.

(** [v] inside a template literal *)
Definition show (v : JsString) : string :=
  match v with
  | Undefined => "undefined"
  | Null => "null"
  | Str s => s
  end.

(** An option of [program]: given with its value, or [undefined]. *)
Definition given (v : option string) : JsString :=
  match v with
  | Some s => Str s
  | None => Undefined
  end.

(** The calls a script makes, in order. *)
Inductive Call : Type :=
| echo_error (text : string)
| echo_errors (texts : list string)
| echo_message (text : string)
| echo_success (text : string)
| echo_newLine
| shell_exec (command : string)
| shell_which (tool : string)
| shell_echo_toEnd (text path : string)
| file_deleteIfExists (path : string)
| webpackPublish_run
| azure_login (arguments : list JsString)
| azure_logout.

(** What the scripts take from outside: [shell.which(tool)] (whether the
    tool is found), [shell.exec(command)], [frontendPath.publishDir()], the
    path of the environment file
    ([upath.toUnix(path.join(frontendPath.projectDir(), ".env.local"))])
    and the result of [webpackPublish.run()]. *)
Class Shell : Type := {
  which : string -> bool;
  exec : string -> ExecResult;
  publishDir : string;
  environmentFilePath : string;
  webpackPublishes : bool
}.

Definition pythonInstallerUrl : string :=
  "https://www.python.org/ftp/python/3.7.4/python-3.7.4-amd64.exe".

Section Script.

(** The variables of a script. *)
Variable V : Type.

Record State : Type := mkState {
  vars : V;
  calls : list Call
}.

(** A step of a script returns, or [shell.exit(code)] ends the process. *)
Inductive Result (A : Type) : Type :=
| Done (a : A) (st : State)
| Exit (code : Z) (st : State).

Definition Step (A : Type) : Type := State -> Result A.

Definition ret (A : Type) (a : A) : Step A := fun st => Done a st.

Definition bind (A B : Type) (m : Step A) (k : A -> Step B) : Step B :=
  fun st =>
    match m st with
    | Done a st => k a st
    | Exit _ code st => Exit B code st
    end.

(** [shell.exit(code)] *)
Definition exit (A : Type) (code : Z) : Step A := fun st => Exit A code st.

(** A call, recorded. *)
Definition call (c : Call) : Step unit :=
  fun st => Done tt (mkState (vars st) (calls st ++ [c])).

Definition getVars : Step V := fun st => Done (vars st) st.

Definition setVars (v : V) : Step unit :=
  fun st => Done tt (mkState v (calls st)).

(** [if (condition) { body }] *)
Definition when (condition : bool) (body : Step unit) : Step unit :=
  if condition then body else ret tt.

Definition stateOf (A : Type) (r : Result A) : State :=
  match r with
  | Done _ st => st
  | Exit _ _ st => st
  end.

End Script.

Arguments Exit {V A} code st.
Arguments exit {V A} code st.
Arguments ret {V A} a st.
Arguments bind {V A B} m k st.
Arguments call {V} c st.
Arguments getVars {V} st.
Arguments setVars {V} v st.
Arguments when {V} condition body st.

Notation "x <- m ;; k" := (bind m (fun x => k))
  (at level 61, m at next level, right associativity).
Notation "m ;; k" := (bind m (fun _ => k))
  (at level 61, right associativity).

(** [shell.which(tool)], recorded; the result tells whether it is found. *)
Definition whichTool {shell : Shell} {V : Type} (tool : string)
  : Step V bool :=
  call (shell_which tool) ;; ret (which tool).

(** [shell.exec(command)], recorded. *)
Definition execute {shell : Shell} {V : Type} (command : string)
  : Step V ExecResult :=
  call (shell_exec command) ;; ret (exec command).

(** [errors.push(message)] under [if (condition)] *)
Definition pushIf (condition : bool) (message : string)
           (errors : list string) : list string :=
  if condition then errors ++ [message] else errors.

(** ** and-cli deploy azure-web-app *)

Module AzureWebApp.

(** The options of [program]. *)
Record Program : Type := mkProgram {
  p_appName : option string;
  p_branch : option string;
  p_clientId : option string;
  p_force : option bool;
  p_remote : option string;
  p_resourceGroup : option string;
  p_secret : option string;
  p_tenantId : option string;
  p_username : option string
}.

(** The variables of the script. *)
Record Vars : Type := mkVars {
  appName : JsString;
  branch : JsString;
  clientId : JsString;
  force : bool;
  remote : JsString;
  resourceGroup : JsString;
  secret : JsString;
  tenantId : JsString;
  username : JsString
}.

Definition initialVars : Vars :=
  mkVars Null Null Null false Null Null Null Null Null.

Section Functions.

Context {shell : Shell}.

(** [deployAzureWebApp.validateOrExit] *)
Definition validateOrExit (program : Program) : Step Vars bool :=
  v <- getVars ;;
  let errors : list string := [] in
  let clientId := given (p_clientId program) in
  let tenantId := given (p_tenantId program) in
  let username := given (p_username program) in
  let missingServicePrincipalArgs :=
    isNullish clientId || isNullish tenantId in
  let errors :=
    pushIf (isNullish username && missingServicePrincipalArgs)
           "when --client-id or --tenant-id not provided, --username is required"
           errors in
  let secret := given (p_secret program) in
  let errors := pushIf (isNullish secret) "--secret is required" errors in
  let appName := given (p_appName program) in
  let errors := pushIf (isNullish appName) "--app-name is required" errors in
  let resourceGroup := given (p_resourceGroup program) in
  let errors :=
    pushIf (isNullish resourceGroup) "--resource-group is required" errors in
  let branch := given (p_branch program) in
  let errors := pushIf (isNullish branch) "--branch is required" errors in
  let remote := given (p_remote program) in
  let errors := pushIf (isNullish remote) "--remote is required" errors in
  let force :=
    match p_force program with
    | Some _ => true
    | None => force v
    end in
  setVars (mkVars appName branch clientId force remote resourceGroup secret
                  tenantId username) ;;
  when (0 <? List.length errors)%nat
       (call (echo_errors errors) ;; exit 1) ;;
  found <- whichTool "az" ;;
  when (negb found)
       (call (echo_message
                     "Azure CLI not found. Attempting install via PIP...") ;;
        pip <- whichTool "pip" ;;
        when (negb pip)
             (call (echo_error
                           ("PIP is required - " ++ pythonInstallerUrl)) ;;
              exit 1) ;;
        installed <- execute "pip install azure-cli" ;;
        when (negb (code installed =? 0)%Z)
             (call (echo_error "Failed to install azure cli via pip") ;;
              exit 1) ;;
        call (echo_success " - Successfully installed Azure CLI")) ;;
  when (0 <? List.length errors)%nat
       (call (echo_errors errors) ;; exit 1) ;;
  ret true.

(** [deployAzureWebApp.createRemoteIfMissing]; the result of [shell.exec]
    inside a template literal reads as its standard output. *)
Definition createRemoteIfMissing : Step Vars unit :=
  v <- getVars ;;
  known <- execute ("git remote get-url " ++ show (remote v)) ;;
  when (negb (code known =? 0)%Z)
       (url <- execute
                 ("az webapp deployment list-publishing-credentials --name "
                    ++ show (appName v) ++ " --resource-group "
                    ++ show (resourceGroup v)
                    ++ " --query scmUri --output tsv") ;;
        added <- execute
                   ("git remote add " ++ show (remote v) ++ " " ++ stdout url) ;;
        when (negb (code added =? 0)%Z)
             (call (echo_error "Error trying to add remote!") ;;
              call azure_logout ;;
              exit 1)).

(** [deployAzureWebApp.pushToRemote] *)
Definition pushToRemote : Step Vars unit :=
  v <- getVars ;;
  let pushCmd :=
    ("git push " ++ show (remote v) ++ " " ++ show (branch v) ++ ":master")%string in
  let pushCmd := if force v then (pushCmd ++ " -f")%string else pushCmd in
  pushed <- execute pushCmd ;;
  when (negb (code pushed =? 0)%Z)
       (call (echo_error " - Failed pushing to Web App remote") ;;
        call azure_logout ;;
        exit 1).

(** [deployAzureWebApp.run] *)
Definition run (program : Program) : Step Vars unit :=
  validateOrExit program ;;
  v <- getVars ;;
  (if negb (isNullish (username v))
   then call (azure_login [username v; secret v])
   else call (azure_login [clientId v; tenantId v; secret v])) ;;
  createRemoteIfMissing ;;
  pushToRemote ;;
  call azure_logout ;;
  call echo_newLine ;;
  call (echo_success
               "Application successfully deployed to Azure Web App!").

End Functions.

(** The messages for the required arguments that [program] lacks, in the
    order of the validation. *)
Definition missingArguments (program : Program) : list string :=
  let lacking (v : option string) (message : string) : list string :=
    match v with
    | Some _ => []
    | None => [message]
    end in
  (match p_username program, p_clientId program, p_tenantId program with
   | Some _, _, _ => []
   | None, Some _, Some _ => []
   | None, _, _ =>
       ["when --client-id or --tenant-id not provided, --username is required"]
   end)
    ++ lacking (p_secret program) "--secret is required"
    ++ lacking (p_appName program) "--app-name is required"
    ++ lacking (p_resourceGroup program) "--resource-group is required"
    ++ lacking (p_branch program) "--branch is required"
    ++ lacking (p_remote program) "--remote is required".

(** The variables after the validation has read [program]. *)
Definition readProgram (program : Program) (v : Vars) : Vars :=
  mkVars (given (p_appName program)) (given (p_branch program))
         (given (p_clientId program))
         (match p_force program with
          | Some _ => true
          | None => force v
          end)
         (given (p_remote program)) (given (p_resourceGroup program))
         (given (p_secret program)) (given (p_tenantId program))
         (given (p_username program)).

(** The Azure CLI is there, or pip is and installs it. *)
Definition azureCliAvailable {shell : Shell} : bool :=
  which "az"
  || (which "pip" && (code (exec "pip install azure-cli") =? 0)%Z).

End AzureWebApp.

(** ** and-cli deploy aws-s3 *)

Module AwsS3.

(** The options of [program]. *)
Record Program : Type := mkProgram {
  p_destination : option string;
  p_profile : option string;
  p_publicUrl : option string;
  p_publish : option bool;
  p_source : option string;
  p_webpack : option bool
}.

(** The variables of the script. *)
Record Vars : Type := mkVars {
  destination : JsString;
  profile : JsString;
  sourcePath : JsString
}.

Section Functions.

Context {shell : Shell}.

Definition initialVars : Vars := mkVars Null Null (Str publishDir).

(** A string or boolean option as the condition of an [if]. *)
Definition truthyString (v : option string) : bool :=
  match v with
  | Some s => negb (String.eqb s "")
  | None => false
  end.

Definition truthyFlag (v : option bool) : bool :=
  match v with
  | Some b => b
  | None => false
  end.

(** [deployAwsS3.cmd] *)
Definition cmd (src dest : JsString) : string :=
  "aws s3 sync " ++ show src ++ " s3://" ++ show dest.

(** [deployAwsS3.validateOrExit] *)
Definition validateOrExit (program : Program) : Step Vars bool :=
  v <- getVars ;;
  let errors : list string := [] in
  let profile := given (p_profile program) in
  let errors :=
    pushIf (isNullish profile) "--profile is required" errors in
  let destination := given (p_destination program) in
  let errors :=
    pushIf (isNullish destination) "--destination is required"
                       errors in
  let sourcePath :=
    match p_source program with
    | Some source => Str source
    | None => sourcePath v
    end in
  setVars (mkVars destination profile sourcePath) ;;
  when (0 <? List.length errors)%nat
       (call (echo_errors errors) ;; exit 1) ;;
  python <- whichTool "python" ;;
  when (negb python)
       (call (echo_error
                     ("Python 3.7+ is required - " ++ pythonInstallerUrl)) ;;
        exit 1) ;;
  pip <- whichTool "pip" ;;
  when (negb pip)
       (call (echo_error ("PIP is required - " ++ pythonInstallerUrl)) ;;
        exit 1) ;;
  aws <- whichTool "aws" ;;
  when (negb aws)
       (call (echo_message "AWS CLI not found. Installing via PIP...") ;;
        installed <- execute "pip install awscli==1.16.9" ;;
        when (negb (code installed =? 0)%Z)
             (call (echo_error "Failed to install aws cli via pip") ;;
              exit 1) ;;
        call (echo_success " - Successfully installed AWS CLI")) ;;
  when (0 <? List.length errors)%nat
       (call (echo_errors errors) ;; exit 1) ;;
  ret true.

(** [deployAwsS3.run] *)
Definition run (program : Program) : Step Vars unit :=
  validateOrExit program ;;
  when (truthyString (p_publicUrl program))
       (call (file_deleteIfExists environmentFilePath) ;;
        call (echo_message
                     ("Generating new " ++ environmentFilePath
                        ++ " file with contents of...")) ;;
        let publicUrlLine :=
          ("PUBLIC_URL=" ++ show (given (p_publicUrl program)))%string in
        call (shell_echo_toEnd
                     "# File is generated by the `and-cli deploy aws-s3` command"
                     environmentFilePath) ;;
        call (shell_echo_toEnd publicUrlLine environmentFilePath) ;;
        call (shell_echo_toEnd "" environmentFilePath) ;;
        call (echo_success
                     "Local environment file generated successfully")) ;;
  when (truthyFlag (p_publish program) && truthyFlag (p_webpack program))
       (call webpackPublish_run ;;
        when (negb webpackPublishes) (exit 1)) ;;
  v <- getVars ;;
  call (echo_message "Copying local build artifacts to Amazon S3...") ;;
  call (echo_message (" - Profile: " ++ show (profile v))) ;;
  call (echo_message (" - Source path: " ++ show (sourcePath v))) ;;
  call (echo_message (" - Destination path: " ++ show (destination v))) ;;
  let syncCommand :=
    (cmd (sourcePath v) (destination v) ++ " --profile " ++ show (profile v))%string in
  call (echo_message (" - Command: " ++ syncCommand)) ;;
  synced <- execute syncCommand ;;
  when (negb (code synced =? 0)%Z)
       (call (echo_error " - Failed to deploy to AWS S3") ;;
        exit 1) ;;
  call echo_newLine ;;
  call (echo_success "Application successfully deployed to AWS S3!").

(** Python and pip are there, and the AWS CLI is or pip installs it. *)
Definition awsCliAvailable : bool :=
  which "python" && which "pip"
  && (which "aws" || (code (exec "pip install awscli==1.16.9") =? 0)%Z).

End Functions.

End AwsS3.


Definition bareShell : Shell :=
  {| which := fun _ => false;
     exec := fun _ => mkExec 1 "" "";
     publishDir := "frontend/build";
     environmentFilePath := "frontend/.env.local";
     webpackPublishes := false |}.



End Deploy.

(** * Properties *)

(** The goal [Some o = Some out -> _]: name what the function left behind. *)
Ltac same_outcome out :=
  let H := fresh "H" in intros H; inversion H; subst out.

(** ** The definitions at work *)

Example split_examples :
  split "a  b   c" "  " = ["a"; "b"; " c"]
  /\ split "" " " = [""]
  /\ split "a " " " = ["a"; ""]
  /\ split "deploy azure-web-app" " " = ["deploy"; "azure-web-app"].
Proof. repeat split. Qed.

Example slice_examples :
  slice [1; 2; 3; 4]%nat 1 3 = [2; 3]%nat
  /\ slice [1; 2; 3; 4]%nat 0 0 = []
  /\ slice [1; 2; 3; 4]%nat 2 9 = [3; 4]%nat
  /\ slice [1; 2; 3; 4]%nat (-1) 4 = [4]%nat.
Proof. repeat split. Qed.

(** The discovery of the stub tree records the two leaves and then their
    parent; the root itself is not in the store. *)
Example stub_discovery :
  option_map (fun out => _dtos (worldOf out))
             (@parse stubImports 5 emptyWorld)
  = Some [ mkDto "aws-s3" ["--force"] (Some "deploy")
         ; mkDto "azure-web-app" ["--force"] (Some "deploy")
         ; mkDto "deploy" [] None ].
Proof. vm_compute. reflexivity. Qed.

Example stub_print :
  let store :=
    [ mkDto "aws-s3" ["--force"] (Some "deploy")
    ; mkDto "azure-web-app" ["--force"] (Some "deploy")
    ; mkDto "deploy" [] None ] in
  option_map effects
             (@print stubImports 3 store 0
                     (mkWorld store DEFAULT_OPTIONS [] FileMissing))
  = Some [ Echo_message "- [ ] <green>deploy" (Some false)
         ; Echo_message "        - [ ] <green>aws-s3" (Some false)
         ; Echo_message "            - [ ] <yellow>--force" (Some false)
         ; Echo_message "        - [ ] <green>azure-web-app" (Some false)
         ; Echo_message "            - [ ] <yellow>--force" (Some false) ].
Proof. vm_compute. reflexivity. Qed.

(** ** The descriptor store *)

Lemma spread_ownProperties (a : PartialDto) (d : ParsedCommandDto) :
  spread a (ownProperties d) = ownProperties d.
Proof. reflexivity. Qed.

Lemma mergeDto_updated (existing : option ParsedCommandDto)
      (updatedDto : ParsedCommandDto) :
  mergeDto existing updatedDto = updatedDto.
Proof. destruct existing, updatedDto; reflexivity. Qed.

(** An upsert drops every entry of the same command and appends the
    update. *)
Lemma _addOrUpdateDto_eq (updatedDto : ParsedCommandDto)
      (store : list ParsedCommandDto) :
  _addOrUpdateDto updatedDto store
  = filter (fun e => negb (findByCommand updatedDto e)) store ++ [updatedDto].
Proof.
  unfold _addOrUpdateDto. now rewrite mergeDto_updated.
Qed.

Lemma filter_twice (A : Type) (p : A -> bool) (xs : list A) :
  filter p (filter p xs) = filter p xs.
Proof.
  induction xs as [|x xs IH]; simpl; [reflexivity|].
  destruct (p x) eqn:Hp; simpl; [rewrite Hp|]; now rewrite ?IH.
Qed.

Lemma filter_none (A : Type) (p : A -> bool) (xs : list A) :
  (forall x, In x xs -> p x = false) -> filter p xs = [].
Proof.
  induction xs as [|x xs IH]; simpl; intros H; [reflexivity|].
  rewrite (H x (or_introl eq_refl)). apply IH. intros y Hy. apply H. now right.
Qed.

Lemma filter_complement (A : Type) (p : A -> bool) (xs : list A) :
  filter p (filter (fun x => negb (p x)) xs) = [].
Proof.
  apply filter_none. intros x Hx. apply filter_In in Hx.
  destruct Hx as [_ Hx]. now destruct (p x).
Qed.

Lemma findByCommand_refl (d : ParsedCommandDto) : findByCommand d d = true.
Proof. unfold findByCommand. apply String.eqb_refl. Qed.

Lemma NoDup_map_filter (A B : Type) (f : A -> B) (p : A -> bool)
      (xs : list A) :
  NoDup (map f xs) -> NoDup (map f (filter p xs)).
Proof.
  induction xs as [|x xs IH]; simpl; intros H; [constructor|].
  inversion H as [|y ys Hnin Hnd]; subst.
  destruct (p x); simpl; [constructor|]; auto.
  intros Hin. apply Hnin. apply in_map_iff in Hin.
  destruct Hin as [z [Hz Hin]]. apply filter_In in Hin.
  apply in_map_iff. exists z. tauto.
Qed.

(** C1. Merge correctness: after upserting {command:"x", options:["a"],
    parent:null} and then {command:"x", options:["b"], parent:"root"}, the
    store (whatever it held before) has exactly one descriptor for "x",
    which is the second one; started from the empty store the result is
    that descriptor alone.  In the merged object a property of the later
    object wins, a property the later object lacks keeps the earlier value,
    and the command of the merged descriptor is the command of the update. *)
Theorem merge_correctness :
  let first := mkDto "x" ["a"] None in
  let second := mkDto "x" ["b"] (Some "root") in
  (forall store : list ParsedCommandDto,
      let store' := _addOrUpdateDto second (_addOrUpdateDto first store) in
      filter (fun d => String.eqb (command d) "x") store' = [second]
      /\ store'
         = filter (fun d => negb (String.eqb (command d) "x")) store
             ++ [second])
  /\ _addOrUpdateDto second (_addOrUpdateDto first []) = [second]
  /\ (forall a b : PartialDto,
         p_command (spread a b)
         = match p_command b with
           | Some later => Some later
           | None => p_command a
           end)
  /\ (forall a b : PartialDto,
         p_options (spread a b)
         = match p_options b with
           | Some later => Some later
           | None => p_options a
           end)
  /\ (forall a b : PartialDto,
         p_parent (spread a b)
         = match p_parent b with
           | Some later => Some later
           | None => p_parent a
           end)
  /\ (forall existing updatedDto,
         command (mergeDto existing updatedDto) = command updatedDto).
Proof.
  intros first second. split; [|split; [reflexivity|]].
  - intros store store'. subst store'. rewrite !_addOrUpdateDto_eq.
    assert (Hstore :
              filter (fun e => negb (findByCommand second e))
                     (filter (fun e => negb (findByCommand first e)) store
                        ++ [first])
              = filter (fun d => negb (String.eqb (command d) "x")) store).
    { rewrite filter_app. simpl. rewrite app_nil_r.
      apply (filter_twice (fun d => negb (String.eqb (command d) "x"))). }
    rewrite Hstore. split; [|reflexivity].
    rewrite filter_app.
    rewrite (filter_complement (fun d => String.eqb (command d) "x")).
    reflexivity.
  - repeat match goal with |- _ /\ _ => split end;
      intros a b; reflexivity.
Qed.

(** C2. Idempotent upsert: for every store and every descriptor, upserting
    the descriptor twice in a row gives the store that upserting it once
    gives. *)
Theorem upsert_idempotent (store : list ParsedCommandDto)
        (d : ParsedCommandDto) :
  _addOrUpdateDto d (_addOrUpdateDto d store) = _addOrUpdateDto d store.
Proof.
  rewrite !_addOrUpdateDto_eq, filter_app, filter_twice. simpl.
  rewrite findByCommand_refl. simpl. now rewrite app_nil_r.
Qed.

(** C3. Uniqueness invariant: if the commands of the store are pairwise
    distinct, they still are after any upsert. *)
Theorem upsert_preserves_unique_commands (store : list ParsedCommandDto)
        (d : ParsedCommandDto) :
  NoDup (map command store) ->
  NoDup (map command (_addOrUpdateDto d store)).
Proof.
  intros Hnd. rewrite _addOrUpdateDto_eq, map_app. simpl.
  apply NoDup_app.
  - now apply NoDup_map_filter.
  - constructor; [intros []|constructor].
  - intros c Hc [Hd|[]]. subst c. apply in_map_iff in Hc.
    destruct Hc as [e [He Hin]]. apply filter_In in Hin.
    destruct Hin as [_ Hneq]. unfold findByCommand in Hneq.
    rewrite He, String.eqb_refl in Hneq. discriminate.
Qed.

Lemma upsert_preserves_unique_commands_witness :
  let store := [mkDto "deploy" [] None; mkDto "x" ["a"] None] in
  let d := mkDto "x" ["b"] (Some "root") in
  NoDup (map command store)
  /\ NoDup (map command (_addOrUpdateDto d store))
  /\ _addOrUpdateDto d store = [mkDto "deploy" [] None; d].
Proof.
  intros store d.
  assert (Hnd : NoDup (map command store)).
  { simpl. repeat constructor; simpl; intuition discriminate. }
  split; [exact Hnd|].
  split; [apply (upsert_preserves_unique_commands store d Hnd)|reflexivity].
Defined.

(** ** Descriptor building *)

Lemma split_from_not_nil (sep : string) (s : string) :
  forall (skip : nat) (cur : string), split_from sep skip cur s <> [].
Proof.
  induction s as [|c rest IH]; intros skip cur; cbn [split_from];
    [discriminate|].
  destruct skip; [|apply IH].
  destruct (String.prefix sep (String c rest)); [discriminate|apply IH].
Qed.

Lemma append_assoc (a b c : string) :
  ((a ++ b) ++ c)%string = (a ++ b ++ c)%string.
Proof. induction a as [|x a IH]; simpl; [reflexivity|now rewrite IH]. Qed.

(** When splitting on one space gives a single piece, that piece is the
    whole string. *)
Lemma split_space_single (s : string) :
  forall cur t : string,
    split_from " " 0 cur s = [t] -> t = (cur ++ s)%string.
Proof.
  induction s as [|c rest IH]; intros cur t; cbn [split_from String.prefix].
  - intros H. inversion H; subst t. clear H.
    induction cur as [|x cur IHc]; simpl; [reflexivity|now rewrite <- IHc].
  - destruct (ascii_dec " " c) as [Hc|Hc].
    + replace (String.prefix "" rest) with true by now destruct rest.
      intros H. inversion H as [[Hcur Hrest]].
      now apply split_from_not_nil in Hrest.
    + intros H. apply IH in H. now rewrite append_assoc in H.
Qed.

Lemma pop_snoc (A : Type) (xs : list A) (x : A) :
  pop (xs ++ [x]) = (Some x, xs).
Proof.
  induction xs as [|y xs IH]; simpl; [reflexivity|].
  rewrite IH. destruct (xs ++ [x]) eqn:E; [|reflexivity].
  now destruct xs.
Qed.

Lemma two_last (A : Type) (xs : list A) :
  (1 < List.length xs)%nat ->
  exists init prev last, xs = init ++ [prev; last].
Proof.
  intros Hlen.
  destruct (exists_last (l := xs)) as [ys [last ->]].
  { intros ->. simpl in Hlen. lia. }
  destruct (exists_last (l := ys)) as [init [prev ->]].
  { intros ->. simpl in Hlen. lia. }
  exists init, prev, last. now rewrite <- app_assoc.
Qed.

(** C4. Descriptor building: with the path split on spaces, either there
    are at least two tokens and the descriptor has the last token as
    [command] and the second-to-last as [parent], or the path is its only
    token and the descriptor has it as [command] and [null] as [parent];
    the options are the ones given.  The two examples of the specification
    follow. *)
Theorem buildDto_correct :
  (forall (fullCommand : string) (options : list string),
      let tokens := split fullCommand " " in
      (exists init prev last,
          tokens = init ++ [prev; last]
          /\ _buildDto fullCommand options = mkDto last options (Some prev))
      \/ (tokens = [fullCommand]
          /\ _buildDto fullCommand options = mkDto fullCommand options None))
  /\ _buildDto "deploy azure-web-app" ["--force"]
     = mkDto "azure-web-app" ["--force"] (Some "deploy")
  /\ _buildDto "list" [] = mkDto "list" [] None.
Proof.
  split; [|split; reflexivity].
  intros fullCommand options tokens. unfold _buildDto. fold tokens.
  destruct (1 <? List.length tokens)%nat eqn:Hlen.
  - left. apply Nat.ltb_lt in Hlen.
    destruct (two_last tokens Hlen) as [init [prev [last Htok]]].
    exists init, prev, last. split; [exact Htok|].
    rewrite Htok.
    replace (init ++ [prev; last]) with ((init ++ [prev]) ++ [last])
      by now rewrite <- app_assoc.
    now rewrite !pop_snoc.
  - right. split; [|reflexivity].
    apply Nat.ltb_ge in Hlen. subst tokens. unfold split in *. simpl in *.
    destruct (split_from " " 0 "" fullCommand) as [|t [|t' rest]] eqn:E.
    + now apply split_from_not_nil in E.
    + now rewrite (split_space_single _ _ E).
    + simpl in Hlen. lia.
Qed.

(** ** Range extraction *)

Lemma findIndex_lower (A : Type) (p : A -> bool) (xs : list A) :
  (-1 <= findIndex p xs)%Z.
Proof.
  induction xs as [|x xs IH]; simpl; [lia|].
  destruct (p x); [lia|].
  destruct (findIndex p xs <? 0)%Z eqn:E; [lia|].
  apply Z.ltb_ge in E. lia.
Qed.

Lemma findIndex_none (A : Type) (p : A -> bool) (xs : list A) :
  (forall x, In x xs -> p x = false) -> findIndex p xs = (-1)%Z.
Proof.
  induction xs as [|x xs IH]; simpl; intros H; [reflexivity|].
  rewrite (H x (or_introl eq_refl)), IH; [reflexivity|].
  intros y Hy. apply H. now right.
Qed.

(** A slice whose upper bound is [0] is empty when its lower bound is not
    negative. *)
Lemma slice_to_zero (A : Type) (xs : list A) (start : Z) :
  (0 <= start)%Z -> slice xs start 0 = [].
Proof.
  intros Hstart. unfold slice, relative_index.
  destruct (start <? 0)%Z eqn:E; [apply Z.ltb_lt in E; lia|].
  change (0 <? 0)%Z with false. cbv iota.
  set (len := Z.of_nat (List.length xs)).
  assert (Hlen : (0 <= len)%Z) by (subst len; lia).
  replace (Z.to_nat (Z.min 0 len - Z.min start len)) with 0%nat by lia.
  reflexivity.
Qed.

(** C10. When no line of the text contains the end marker, the extractor
    returns the empty sequence, whatever the start marker, the options and
    the rest of the text are. *)
Theorem parseOutputByRange_no_end_marker {imports : Imports}
        (o : ListCommandsOptions) (output startPattern endPattern : string) :
  (forall line, In line (split output LF) ->
                includes line endPattern = false) ->
  _parseOutputByRange o output startPattern endPattern = [].
Proof.
  intros Hend. unfold _parseOutputByRange.
  rewrite (findIndex_none (fun line => includes line endPattern) _ Hend).
  change (-1 + 1)%Z with 0%Z.
  rewrite slice_to_zero.
  - simpl. now destruct (includeHelp o).
  - pose proof (findIndex_lower (fun line => includes line startPattern)
                                (split output LF)). lia.
Qed.

Lemma parseOutputByRange_no_end_marker_witness :
  (forall line, In line (split "Commands: foo" LF) ->
                includes line "help [command]" = false)
  /\ @_parseOutputByRange stubImports DEFAULT_OPTIONS "Commands: foo"
                          "Commands:" "help [command]" = [].
Proof.
  assert (H : forall line, In line (split "Commands: foo" LF) ->
                           includes line "help [command]" = false).
  { intros line [<-|[]]. reflexivity. }
  split; [exact H|].
  apply (@parseOutputByRange_no_end_marker
           stubImports DEFAULT_OPTIONS "Commands: foo" "Commands:"
           "help [command]" H).
Defined.

Lemma exampleHelp_range :
  let lines := split exampleHelp LF in
  slice lines
        (findIndex (fun line => includes line "Commands:") lines + 1)
        (findIndex (fun line => includes line "help [command]") lines + 1)
  = ["  foo  desc"; "  bar  desc"; "help [command]"].
Proof. vm_compute. reflexivity. Qed.

(** C5. Range extraction: with [includeHelp] false, the text
    "Commands:\n  foo  desc\n  bar  desc\nhelp [command]\n" between the
    markers "Commands:" and "help [command]" yields ["foo"; "bar"], in this
    order: each kept line gives the piece after its first two-space
    separator, and the closing help line gives nothing.  The imported
    constants are assumed not to interfere with the example: the alias
    prefix occurs in neither command line, the options-end sentinel is
    neither "foo" nor "bar", and the library does not regard "foo" or "bar"
    as empty. *)
Theorem range_extraction_example {imports : Imports}
        (o : ListCommandsOptions) :
  includeHelp o = false ->
  emptyText "foo" = false ->
  emptyText "bar" = false ->
  includes "  foo  desc" ALIAS_PREFIX = false ->
  includes "  bar  desc" ALIAS_PREFIX = false ->
  String.eqb "foo" OPTIONS_END_STRING = false ->
  String.eqb "bar" OPTIONS_END_STRING = false ->
  _parseOutputByRange o exampleHelp "Commands:" "help [command]"
  = ["foo"; "bar"].
Proof.
  intros Hhelp Hfoo Hbar Hafoo Habar Hofoo Hobar.
  unfold _parseOutputByRange. rewrite exampleHelp_range, Hhelp.
  unfold FILTERED_STRINGS.
  cbn [filter existsb].
  change (includes "  foo  desc" TAB) with false.
  change (includes "  bar  desc" TAB) with false.
  change (includes "help [command]" TAB) with false.
  rewrite Hafoo, Habar. cbn [orb negb].
  assert (Htokens :
            forall rest : list string,
              strings (filter hasValue
                         (map (fun line => nth_error (split line "  ") 1)
                              ("  foo  desc" :: "  bar  desc" :: rest)))
              = "foo" :: "bar"
                  :: strings (filter hasValue
                                (map (fun line =>
                                        nth_error (split line "  ") 1)
                                     rest))).
  { intros rest. cbn [map].
    change (nth_error (split "  foo  desc" "  ") 1) with (Some "foo").
    change (nth_error (split "  bar  desc" "  ") 1) with (Some "bar").
    cbn [filter]. unfold hasValue at 1 2. cbn [isEmpty].
    rewrite Hfoo, Hbar. reflexivity. }
  assert (Hkeep :
            filter (fun line =>
                      negb (String.eqb line OPTIONS_END_STRING)
                      && negb (String.eqb line COMMANDS_END_STRING))
                   ["foo"; "bar"] = ["foo"; "bar"]).
  { cbn [filter]. rewrite Hofoo, Hobar. reflexivity. }
  destruct (includes "help [command]" ALIAS_PREFIX);
    cbn [orb negb]; rewrite Htokens; cbn [map filter strings];
    [exact Hkeep|].
  change (nth_error (split "help [command]" "  ") 1) with (@None string).
  cbn [filter hasValue isEmpty negb strings]. exact Hkeep.
Qed.

Lemma range_extraction_example_witness :
  @_parseOutputByRange stubImports DEFAULT_OPTIONS exampleHelp
                       "Commands:" "help [command]"
  = ["foo"; "bar"].
Proof.
  apply (@range_extraction_example stubImports DEFAULT_OPTIONS);
    reflexivity.
Defined.

(** ** Provider failure *)

(** The number inside the message is the decimal numeral of the exit
    code: read back, it gives the code. *)
Lemma showNumber_decimal (n : Z) :
  option_map Z.of_int (NilZero.int_of_string (showNumber n)) = Some n.
Proof.
  unfold showNumber. rewrite NilZero.isi.
  - cbn [option_map]. now rewrite DecimalZ.of_to.
  - intros H. pose proof (DecimalZ.of_to n) as Hn. rewrite H in Hn.
    cbn in Hn. subst n. discriminate.
  - intros H. pose proof (DecimalZ.of_to n) as Hn. rewrite H in Hn.
    cbn in Hn. subst n. discriminate.
Qed.

(** C7 (as the code has it). Provider failure is fatal and not retried:
    when the result of the help invocation has a non-zero exit code or an
    error stream that [StringUtils.hasValue] accepts, [_execCliHelp] calls
    the provider once, reports an error naming the help command and the
    error stream or, when the error stream has no value, the exit code in
    decimal, and ends the process with status 1 instead of returning the
    help text; the discoverer ends in the same way, visiting nothing
    else. *)
Theorem provider_failure_is_fatal {imports : Imports}
        (command : option string) (w : World) :
  code (shell_exec (cmd command)) <> 0%Z
  \/ hasValue (Some (stderr (shell_exec (cmd command)))) = true ->
  _execCliHelp command w = Exited 1 (failedHelp command w)
  /\ (forall fuel : nat,
         _parseChildrenAndOptions (S fuel) command w
         = Some (Exited 1 (failedHelp command w)))
  /\ effects (failedHelp command w)
     = effects w
         ++ [ Shell_exec (cmd command)
            ; Echo_message
                ("Running " ++ purple (cmd command)
                   ++ " for commands and options...") None
            ; Echo_error
                ("Failed to run " ++ purple (cmd command) ++ ": "
                   ++ red (if hasValue
                                (Some (stderr (shell_exec (cmd command))))
                           then LF ++ LF ++ stderr (shell_exec (cmd command))
                           else "exited with code "
                                  ++ showNumber
                                       (code (shell_exec (cmd command))))) ]
  /\ option_map Z.of_int
                (NilZero.int_of_string
                   (showNumber (code (shell_exec (cmd command)))))
     = Some (code (shell_exec (cmd command))).
Proof.
  intros Hfail.
  assert (Hexec : _execCliHelp command w = Exited 1 (failedHelp command w)).
  { unfold _execCliHelp, failedHelp, emit. cbn [effects _dtos _options cacheFile].
    replace (negb (code (shell_exec (cmd command)) =? 0)%Z
             || hasValue (Some (stderr (shell_exec (cmd command)))))
      with true.
    - now rewrite <- !app_assoc.
    - destruct Hfail as [Hcode|Herr].
      + apply Z.eqb_neq in Hcode. now rewrite Hcode.
      + rewrite Herr. now rewrite orb_true_r. }
  split; [exact Hexec|]. split.
  - intros fuel. cbn [_parseChildrenAndOptions]. now rewrite Hexec.
  - split; [reflexivity|apply showNumber_decimal].
Qed.

Lemma provider_failure_is_fatal_witness :
  @_execCliHelp stubImports (Some "nope") emptyWorld
  = Exited 1
           (mkWorld [] DEFAULT_OPTIONS
                    [ Shell_exec "and-cli nope -h"
                    ; Echo_message
                        "Running <purple>and-cli nope -h for commands and options..."
                        None
                    ; Echo_error
                        ("Failed to run <purple>and-cli nope -h: <red>"
                           ++ LF ++ LF ++ "command not found") ]
                    FileMissing)
  /\ @_execCliHelp silentFailureImports (Some "nope") emptyWorld
     = Exited 1
              (mkWorld [] DEFAULT_OPTIONS
                       [ Shell_exec "and-cli nope -h"
                       ; Echo_message
                           "Running <purple>and-cli nope -h for commands and options..."
                           None
                       ; Echo_error
                           "Failed to run <purple>and-cli nope -h: <red>exited with code 2" ]
                       FileMissing).
Proof.
  split.
  - refine (proj1 (@provider_failure_is_fatal
                     stubImports (Some "nope") emptyWorld _)).
    left. vm_compute. discriminate.
  - refine (proj1 (@provider_failure_is_fatal
                     silentFailureImports (Some "nope") emptyWorld _)).
    left. vm_compute. discriminate.
Defined.

(** An error stream that is not empty but holds white space only is no
    failure: with exit code 0 the help text is returned and no error is
    reported. *)
Lemma provider_failure_is_fatal_counterexample :
  stderr (@shell_exec blankErrorImports (@cmd blankErrorImports None))
  <> EmptyString
  /\ @_execCliHelp blankErrorImports None emptyWorld
     = Returned "HELP TEXT"
                (mkWorld [] DEFAULT_OPTIONS
                         [ Shell_exec "and-cli -h"
                         ; Echo_message
                             "Running <purple>and-cli -h for commands and options..."
                             None ]
                         FileMissing).
Proof.
  split; [vm_compute; discriminate|vm_compute; reflexivity].
Qed.

(** ** Cache read failure *)

(** C8. Cache read failure is recovered locally: when the cache file is
    missing, cannot be read or does not deserialize, reading it ends
    nothing: it leaves the store empty and [skipCache] true and reports the
    failure; and a run that was not asked to skip the cache then goes on
    with the full discovery, from that world. *)
Theorem cache_read_failure_recovered {imports : Imports}
        (fuel : nat) (w : World) (report : list Effect) :
  cacheReadFailure (cacheFile w) = Some report ->
  report <> []
  /\ readCachedFile w = recovered report w
  /\ _dtos (readCachedFile w) = []
  /\ skipCache (_options (readCachedFile w)) = true
  /\ (skipCache (_options w) = false ->
      parseOrReadCache fuel w = parse fuel (recovered report w)).
Proof.
  intros Hfail.
  assert (Hread : readCachedFile w = recovered report w).
  { destruct w as [dtos o eff file]. destruct o.
    unfold cacheReadFailure in Hfail. cbn [cacheFile] in Hfail.
    unfold readCachedFile, recovered, resetCache, setDtos, emit, setOptions.
    cbn [cacheFile _dtos _options effects].
    destruct file as [|error|text].
    - inversion Hfail; subst report. reflexivity.
    - inversion Hfail; subst report. cbn. now rewrite <- app_assoc.
    - destruct (JSON_parse text) as [error|dtos']; [|discriminate].
      inversion Hfail; subst report. cbn. now rewrite <- app_assoc. }
  split.
  { unfold cacheReadFailure in Hfail.
    destruct (cacheFile w) as [|error|text];
      [| |destruct (JSON_parse text)]; inversion Hfail; discriminate. }
  split; [exact Hread|]. rewrite Hread.
  split; [reflexivity|]. split; [reflexivity|].
  intros Hskip. unfold parseOrReadCache. rewrite Hskip, Hread.
  reflexivity.
Qed.

Lemma cache_read_failure_recovered_witness :
  let w := mkWorld [mkDto "stale" [] None] DEFAULT_OPTIONS []
                   (FileContents "[x") in
  let report :=
    [ Echo_message "Found command list cache, attempting to read..." None
    ; Echo_error
        "There was an error attempting to read or deserialize the file at ~/.and-cli/commands.and-cli.json - SyntaxError: Unexpected token"
    ] in
  @cacheReadFailure stubImports (cacheFile w) = Some report
  /\ @parseOrReadCache stubImports 5 w
     = @parse stubImports 5 (recovered report w).
Proof.
  intros w report.
  assert (H : @cacheReadFailure stubImports (cacheFile w) = Some report)
    by reflexivity.
  split; [exact H|].
  apply (@cache_read_failure_recovered stubImports 5 w report H).
  reflexivity.
Defined.

(** ** The root is never recorded *)

Lemma records_trans {imports : Imports} (o : ListCommandsOptions)
      (command : option string) (a b c : list ParsedCommandDto) :
  records o command a b -> records o command b c -> records o command a c.
Proof.
  intros Hab Hbc. induction Hbc as [|b c path Hbc IH Hpath Hfull].
  - exact Hab.
  - apply records_path; auto.
Qed.

(** What the discovery of a child records, the discovery of its parent
    records. *)
Lemma records_child {imports : Imports} (o : ListCommandsOptions)
      (command : option string) (child : string)
      (a b : list ParsedCommandDto) :
  In child (_parseChildren o (helpText command)) ->
  records o (Some (childPath command child)) a b ->
  records o command a b.
Proof.
  intros Hchild Hab. induction Hab as [|a b path Hab IH Hpath Hfull].
  - apply records_nothing.
  - apply records_path; [exact IH| |exact Hfull].
    right. destruct Hpath as [Heq|Hbelow].
    + inversion Heq; subst path. now apply discovered_child.
    + apply discovered_below with (path := childPath command child);
        [now apply discovered_child|exact Hbelow].
Qed.

Lemma execCliHelp_world {imports : Imports} (command : option string)
      (w : World) :
  _dtos (worldOf (_execCliHelp command w)) = _dtos w
  /\ _options (worldOf (_execCliHelp command w)) = _options w.
Proof.
  unfold _execCliHelp.
  destruct (negb (code (shell_exec (cmd command)) =? 0)%Z
            || hasValue (Some (stderr (shell_exec (cmd command)))));
    split; reflexivity.
Qed.

Lemma execCliHelp_returned {imports : Imports} (command : option string)
      (w w' : World) (text : string) :
  _execCliHelp command w = Returned text w' -> text = helpText command.
Proof.
  unfold _execCliHelp.
  destruct (negb (code (shell_exec (cmd command)) =? 0)%Z
            || hasValue (Some (stderr (shell_exec (cmd command)))));
    [discriminate|].
  intros H. now inversion H.
Qed.

Lemma forEach_records {imports : Imports} (o : ListCommandsOptions)
      (command : option string)
      (body : string -> World -> option (Outcome unit)) (xs : list string) :
  (forall x w out,
      In x xs -> _options w = o -> body x w = Some out ->
      _options (worldOf out) = o
      /\ records o command (_dtos w) (_dtos (worldOf out))) ->
  forall w out,
    _options w = o -> forEach body xs w = Some out ->
    _options (worldOf out) = o
    /\ records o command (_dtos w) (_dtos (worldOf out)).
Proof.
  induction xs as [|x xs IH]; intros Hbody w out Ho; cbn [forEach].
  - same_outcome out. split; [exact Ho|].
    apply records_nothing.
  - destruct (body x w) as [[[] w1|c w1]|] eqn:Hx; [| |discriminate].
    + destruct (Hbody x w _ (or_introl eq_refl) Ho Hx) as [Ho1 Hr1].
      intros H. destruct (IH (fun y w0 out0 Hy => Hbody y w0 out0
                                                    (or_intror Hy))
                             w1 out Ho1 H) as [Ho' Hr'].
      split; [exact Ho'|].
      now apply records_trans with (b := _dtos w1).
    + same_outcome out.
      exact (Hbody x w _ (or_introl eq_refl) Ho Hx).
Qed.

(** Whatever command the discoverer is invoked with, it leaves the options
    as they are and records the command and its descendants only. *)
Lemma parseChildrenAndOptions_records {imports : Imports} (fuel : nat) :
  forall (command : option string) (w : World) (out : Outcome unit),
    _parseChildrenAndOptions fuel command w = Some out ->
    _options (worldOf out) = _options w
    /\ records (_options w) command (_dtos w) (_dtos (worldOf out)).
Proof.
  induction fuel as [|fuel IH]; intros command w out; [discriminate|].
  cbn [_parseChildrenAndOptions].
  destruct (execCliHelp_world command w) as [Hdtos Hoptions].
  pose proof (@execCliHelp_returned imports command w) as Htext.
  destruct (_execCliHelp command w) as [text w1|c w1];
    cbn [worldOf] in Hdtos, Hoptions.
  - rewrite (Htext w1 text eq_refl), Hoptions, <- Hdtos. clear Htext.
    assert (Hloop :
              forall child w0 out0,
                In child (_parseChildren (_options w) (helpText command)) ->
                _options w0 = _options w ->
                (if hasValue command
                 then _parseChildrenAndOptions
                        fuel
                        (Some (interpolate command ++ " " ++ child)%string)
                        w0
                 else _parseChildrenAndOptions fuel (Some child) w0)
                = Some out0 ->
                _options (worldOf out0) = _options w
                /\ records (_options w) command (_dtos w0)
                           (_dtos (worldOf out0))).
    { intros child w0 out0 Hchild Ho Hrun.
      assert (Hrec : _parseChildrenAndOptions
                       fuel (Some (childPath command child)) w0
                     = Some out0).
      { unfold childPath. now destruct (hasValue command). }
      apply IH in Hrec. rewrite Ho in Hrec. destruct Hrec as [Ho' Hr].
      split; [exact Ho'|]. now apply records_child with (child := child). }
    match goal with
    | |- match forEach ?body ?xs ?w0 with _ => _ end = _ -> _ =>
        pose proof (@forEach_records imports (_options w) command body xs
                                     Hloop w0) as Heach;
        destruct (forEach body xs w0) as [[[] w2|c w2]|]
    end; [| |discriminate].
    + destruct (Heach _ Hoptions eq_refl) as [Ho2 Hr2].
      cbn [worldOf] in Ho2, Hr2.
      destruct (isEmpty command) eqn:Hempty.
      * same_outcome out. now split.
      * destruct command as [fullCommand|].
        -- same_outcome out.
           cbn [worldOf setDtos _dtos _options]. split; [exact Ho2|].
           rewrite Ho2. apply records_path; [exact Hr2| |exact Hempty].
           now left.
        -- same_outcome out. now split.
    + same_outcome out. exact (Heach _ Hoptions eq_refl).
  - same_outcome out. cbn [worldOf].
    rewrite Hdtos. split; [exact Hoptions|apply records_nothing].
Qed.

Lemma forEach_unit (A : Type) (body : A -> World -> option (Outcome unit))
      (xs : list A) (w : World) :
  match forEach body xs w with
  | Some (Returned _ w') => Some (Returned tt w')
  | other => other
  end = forEach body xs w.
Proof. now destruct (forEach body xs w) as [[[] w'|c w']|]. Qed.

(** C9. The root is never recorded: a discovery invoked without a command
    path asks the provider for the root help and then only runs the
    discovery of each child found there, upserting nothing for the root
    itself; and whenever it ends, by returning or by a fatal provider
    failure, the store differs from the initial one only by upserts of
    descriptors built from the paths of discovered descendants (the
    invocation has no path of its own that could be recorded). *)
Theorem root_is_never_recorded {imports : Imports}
        (fuel : nat) (w : World) (out : Outcome unit) :
  parse fuel w = Some out ->
  records (_options w) None (_dtos w) (_dtos (worldOf out))
  /\ (forall path,
         recordable (_options w) None path ->
         discovered (_options w) None path)
  /\ forall fuel' w',
      parse (S fuel') w'
      = match _execCliHelp None w' with
        | Exited c w1 => Some (Exited c w1)
        | Returned text w1 =>
            forEach (fun child w2 =>
                       _parseChildrenAndOptions fuel' (Some child) w2)
                    (_parseChildren (_options w1) text) w1
        end.
Proof.
  intros Hout. split; [|split].
  - exact (proj2 (parseChildrenAndOptions_records fuel None w Hout)).
  - intros path [Heq|Hbelow]; [discriminate|exact Hbelow].
  - intros fuel' w'. unfold parse. cbn [_parseChildrenAndOptions].
    destruct (_execCliHelp None w') as [text w1|c w1]; [|reflexivity].
    cbn [hasValue isEmpty negb]. apply forEach_unit.
Qed.

Lemma root_is_never_recorded_witness :
  exists out : Outcome unit,
    @parse stubImports 5 emptyWorld = Some out
    /\ @records stubImports (_options emptyWorld) None
                (_dtos emptyWorld) (_dtos (worldOf out)).
Proof.
  assert (E : exists out, @parse stubImports 5 emptyWorld = Some out)
    by (vm_compute; eexists; reflexivity).
  destruct E as [out E]. exists out. split; [exact E|].
  exact (proj1 (@root_is_never_recorded stubImports 5 emptyWorld out E)).
Defined.

(** ** Tree printing *)

Lemma print_unfold {imports : Imports} (fuel : nat)
      (dtos : list ParsedCommandDto) (indent : nat) (w : World) :
  print (S fuel) dtos indent w
  = forEachEcho (fun command w => printCommand fuel command indent w)
                (_getParentCommandsOrDefault dtos) w.
Proof. reflexivity. Qed.

Lemma withEffects_nil (w : World) : withEffects [] w = w.
Proof. destruct w. unfold withEffects. simpl. now rewrite app_nil_r. Qed.

Lemma withEffects_app (a b : list Effect) (w : World) :
  withEffects b (withEffects a w) = withEffects (a ++ b) w.
Proof. unfold withEffects. simpl. now rewrite app_assoc. Qed.

Lemma printOptions_effects {imports : Imports} (dto : ParsedCommandDto)
      (indent : nat) (w : World) :
  exists added, printOptions dto indent w = withEffects added w.
Proof.
  unfold printOptions. generalize (options dto) as opts.
  intros opts. revert w.
  induction opts as [|opt opts IH]; intros w; simpl.
  - exists []. now rewrite withEffects_nil.
  - destruct (IH (printOption opt indent w)) as [added Hadded].
    rewrite Hadded. unfold printOption, _echoFormatted.
    eexists. apply (withEffects_app [_] added w).
Qed.

(** The roots chosen by [print]. *)
Lemma roots_without_parentless (dtos : list ParsedCommandDto) :
  Forall (fun d => hasNoParent d = false) dtos ->
  _getParentCommandsOrDefault dtos = dtos.
Proof.
  intros Hall. unfold _getParentCommandsOrDefault.
  rewrite filter_none; [reflexivity|].
  now apply Forall_forall.
Qed.

Lemma roots_with_parentless (dtos : list ParsedCommandDto) :
  Exists (fun d => hasNoParent d = true) dtos ->
  _getParentCommandsOrDefault dtos = filter hasNoParent dtos.
Proof.
  intros Hex. unfold _getParentCommandsOrDefault.
  apply Exists_exists in Hex. destruct Hex as [d [Hin Hd]].
  assert (Hf : In d (filter hasNoParent dtos)) by (apply filter_In; auto).
  now destruct (filter hasNoParent dtos).
Qed.

Lemma roots_incl (dtos : list ParsedCommandDto) (d : ParsedCommandDto) :
  In d (_getParentCommandsOrDefault dtos) -> In d dtos.
Proof.
  unfold _getParentCommandsOrDefault.
  destruct (hasValues (filter hasNoParent dtos)); [|auto].
  intros H. now apply filter_In in H.
Qed.

(** A printing that completes only adds effects: a block per root. *)
Lemma print_blocks {imports : Imports} (fuel : nat) :
  forall (dtos : list ParsedCommandDto) (indent : nat) (w w' : World),
    print fuel dtos indent w = Some w' ->
    exists blocks,
      w' = withEffects (concat blocks) w
      /\ blocksOf (_options w) indent (_getParentCommandsOrDefault dtos)
                  blocks.
Proof.
  induction fuel as [|fuel IH]; intros dtos indent w w'; [discriminate|].
  rewrite print_unfold.
  generalize (_getParentCommandsOrDefault dtos) as roots.
  intros roots. revert w.
  induction roots as [|r roots IHroots]; intros w; cbn [forEachEcho].
  - intros H. inversion H; subst w'. exists []. split.
    + simpl. now rewrite withEffects_nil.
    + constructor.
  - destruct (printCommand fuel r indent w) as [w1|] eqn:Hr; [|discriminate].
    intros Hrest. unfold printCommand in Hr.
    destruct (printOptions_effects
                r (indent
                   + indentStep
                       (_options
                          (_echoFormatted
                             (if useColor (_options w)
                              then green (command r) else command r)
                             indent w)))
                (_echoFormatted
                   (if useColor (_options w)
                    then green (command r) else command r) indent w))
      as [added Hadded].
    rewrite Hadded in Hr. apply IH in Hr. destruct Hr as [inner [Hw1 _]].
    assert (Hblock :
              w1 = withEffects
                     (commandLine (_options w) r indent
                        :: added ++ concat inner) w).
    { rewrite Hw1. unfold _echoFormatted, emit.
      fold (withEffects
              [Echo_message
                 (repeat_space indent ++ prefix (_options w)
                    ++ (if useColor (_options w)
                        then green (command r) else command r))
                 (Some false)] w).
      now rewrite !withEffects_app. }
    destruct (IHroots w1 Hrest) as [blocks [Hw' Hblocks]].
    exists ((commandLine (_options w) r indent :: added ++ concat inner)
              :: blocks).
    split.
    + rewrite Hw', Hblock, withEffects_app. reflexivity.
    + constructor.
      * now eexists.
      * rewrite Hblock in Hblocks. exact Hblocks.
Qed.

Lemma printCommand_dtos {imports : Imports} (fuel : nat)
      (dto : ParsedCommandDto) (indent : nat) (w w' : World) :
  printCommand fuel dto indent w = Some w' -> _dtos w' = _dtos w.
Proof.
  unfold printCommand.
  match goal with
  | |- context [printOptions dto ?i ?w0] =>
      destruct (printOptions_effects dto i w0) as [added Hadded];
      rewrite Hadded
  end.
  intros H. apply print_blocks in H. destruct H as [blocks [-> _]].
  reflexivity.
Qed.

(** When the parent relation of the store is well-founded ([rank] grows
    from a descriptor to its parent), a printing with enough fuel
    completes. *)
Lemma print_completes {imports : Imports} (rank : string -> nat)
      (fuel : nat) :
  forall (dtos : list ParsedCommandDto) (indent : nat) (w : World),
    (forall child p,
        In child (_dtos w) -> parent child = Some p ->
        (rank (command child) < rank p)%nat) ->
    (forall d, In d dtos -> (rank (command d) + 1 < fuel)%nat) ->
    (1 <= fuel)%nat ->
    exists w', print fuel dtos indent w = Some w'.
Proof.
  induction fuel as [|fuel IH]; intros dtos indent w Hwf Hrank Hfuel; [lia|].
  rewrite print_unfold.
  assert (Hroots :
            forall d, In d (_getParentCommandsOrDefault dtos) ->
                      (rank (command d) + 1 < S fuel)%nat).
  { intros d Hd. apply Hrank. now apply roots_incl. }
  clear Hrank. revert Hroots.
  generalize (_getParentCommandsOrDefault dtos) as roots.
  intros roots. revert w Hwf.
  induction roots as [|r roots IHroots]; intros w Hwf Hroots;
    cbn [forEachEcho].
  - now exists w.
  - assert (Hr : exists w1, printCommand fuel r indent w = Some w1).
    { unfold printCommand.
      match goal with
      | |- context [printOptions r ?i ?w0] =>
          destruct (printOptions_effects r i w0) as [added Hadded];
          rewrite Hadded
      end.
      apply IH.
      - exact Hwf.
      - intros child Hchild. unfold _getChildren in Hchild.
        apply filter_In in Hchild. destruct Hchild as [Hin Hp].
        cbn [withEffects _echoFormatted emit _dtos] in Hin.
        destruct (parent child) as [p|] eqn:Hparent; [|discriminate].
        apply String.eqb_eq in Hp. subst p.
        pose proof (Hwf child (command r) Hin Hparent).
        pose proof (Hroots r (or_introl eq_refl)). lia.
      - pose proof (Hroots r (or_introl eq_refl)). lia. }
    destruct Hr as [w1 Hr]. rewrite Hr.
    apply printCommand_dtos in Hr.
    apply IHroots.
    + now rewrite Hr.
    + intros d Hd. apply Hroots. now right.
Qed.

Lemma blocks_contain_lines {imports : Imports} (o : ListCommandsOptions)
      (indent : nat) (roots : list ParsedCommandDto)
      (blocks : list (list Effect)) :
  blocksOf o indent roots blocks ->
  forall d, In d roots -> In (commandLine o d indent) (concat blocks).
Proof.
  induction 1 as [|r block roots blocks [rest Hblock] _ IH]; intros d;
    [intros []|].
  intros [<-|Hd]; simpl; apply in_or_app.
  - left. rewrite Hblock. now left.
  - right. now apply IH.
Qed.

Lemma print_cyclicStore {imports : Imports} (fuel : nat) :
  forall (indent : nat) (w : World),
    _dtos w = cyclicStore -> print fuel cyclicStore indent w = None.
Proof.
  induction fuel as [|fuel IH]; intros indent w Hstore; [reflexivity|].
  rewrite print_unfold.
  change (_getParentCommandsOrDefault cyclicStore) with cyclicStore.
  unfold cyclicStore at 1. cbn [forEachEcho].
  replace (printCommand fuel (mkDto "a" [] (Some "a")) indent w)
    with (@None World); [reflexivity|].
  symmetry. unfold printCommand. cbn [printOptions options fold_left].
  match goal with
  | |- context [_dtos (_echoFormatted ?m ?i w)] =>
      change (_dtos (_echoFormatted m i w)) with (_dtos w)
  end.
  rewrite Hstore.
  change (_getChildren (mkDto "a" [] (Some "a")) cyclicStore)
    with cyclicStore.
  apply IH. exact Hstore.
Qed.

(** C6 (as the code has it). Fallback rooting: when every descriptor has a
    parent, [print] takes all the descriptors as roots, in store order;
    when some descriptor has none, it takes exactly the descriptors without
    parent, in store order.  When moreover the parent relation of the store
    has no cycle, the printing completes, and its output is one block per
    root, in the order of the roots, each block starting with the line of
    that root's command: every root is emitted. *)
Theorem fallback_rooting {imports : Imports} (rank : string -> nat)
        (dtos : list ParsedCommandDto) (indent : nat) (w : World) :
  (forall child p,
      In child (_dtos w) -> parent child = Some p ->
      (rank (command child) < rank p)%nat) ->
  (Forall (fun d => hasNoParent d = false) dtos ->
   _getParentCommandsOrDefault dtos = dtos)
  /\ (Exists (fun d => hasNoParent d = true) dtos ->
      _getParentCommandsOrDefault dtos = filter hasNoParent dtos)
  /\ exists (fuel : nat) (w' : World) (blocks : list (list Effect)),
      print fuel dtos indent w = Some w'
      /\ w' = withEffects (concat blocks) w
      /\ blocksOf (_options w) indent (_getParentCommandsOrDefault dtos)
                  blocks
      /\ forall d, In d (_getParentCommandsOrDefault dtos) ->
                   In (commandLine (_options w) d indent) (effects w').
Proof.
  intros Hwf.
  split; [apply roots_without_parentless|].
  split; [apply roots_with_parentless|].
  set (fuel := S (S (list_max (map (fun d => rank (command d)) dtos)))).
  destruct (print_completes rank (fuel := fuel) dtos indent w Hwf)
    as [w' Hw'].
  - intros d Hd. subst fuel.
    assert (Hle : (rank (command d)
                   <= list_max (map (fun d => rank (command d)) dtos))%nat).
    { pose proof (proj1 (list_max_le
                           (map (fun d => rank (command d)) dtos) _)
                        (Nat.le_refl _)) as Hall.
      rewrite Forall_forall in Hall. apply Hall.
      apply in_map_iff. now exists d. }
    lia.
  - subst fuel. lia.
  - destruct (print_blocks _ _ _ _ Hw') as [blocks [Heq Hblocks]].
    exists fuel, w', blocks. repeat split; auto.
    intros d Hd. rewrite Heq. cbn [withEffects effects].
    apply in_or_app. right.
    now apply (blocks_contain_lines Hblocks).
Qed.

Lemma fallback_rooting_witness :
  let store :=
    [ mkDto "aws-s3" ["--force"] (Some "deploy")
    ; mkDto "azure-web-app" [] (Some "deploy") ] in
  let w := mkWorld store DEFAULT_OPTIONS [] FileMissing in
  _getParentCommandsOrDefault store = store
  /\ exists (fuel : nat) (w' : World),
      @print stubImports fuel store 0 w = Some w'
      /\ In (Echo_message "- [ ] <green>aws-s3" (Some false)) (effects w')
      /\ In (Echo_message "- [ ] <green>azure-web-app" (Some false))
            (effects w').
Proof.
  intros store w.
  set (rank := fun c : string => if String.eqb c "deploy" then 1%nat else 0%nat).
  assert (Hwf : forall child p,
             In child (_dtos w) -> parent child = Some p ->
             (rank (command child) < rank p)%nat).
  { intros child p [<-|[<-|[]]] Hp; inversion Hp; subst p; vm_compute; lia. }
  destruct (@fallback_rooting stubImports rank store 0 w Hwf)
    as [Hall [_ [fuel [w' [blocks [Hprint [_ [_ Hlines]]]]]]]].
  assert (Hroots : _getParentCommandsOrDefault store = store).
  { apply Hall. repeat constructor. }
  split; [exact Hroots|].
  exists fuel, w'. split; [exact Hprint|].
  rewrite Hroots in Hlines.
  split.
  - apply (Hlines (mkDto "aws-s3" ["--force"] (Some "deploy"))). now left.
  - apply (Hlines (mkDto "azure-web-app" [] (Some "deploy"))).
    right. now left.
Defined.

Lemma fallback_rooting_counterexample :
  cyclicStore <> []
  /\ Forall (fun d => hasNoParent d = false) cyclicStore
  /\ forall fuel : nat,
      @print stubImports fuel cyclicStore 0
             (mkWorld cyclicStore DEFAULT_OPTIONS [] FileMissing)
      = None.
Proof.
  split; [discriminate|]. split; [repeat constructor|].
  intros fuel. now apply print_cyclicStore.
Qed.

(** * Further properties *)

(** ** The store as a map keyed by command *)

Lemma filter_split_length (A : Type) (p : A -> bool) (xs : list A) :
  (List.length (filter (fun x => negb (p x)) xs)
   + List.length (filter p xs) = List.length xs)%nat.
Proof.
  induction xs as [|x xs IH]; simpl; [reflexivity|].
  destruct (p x); simpl; lia.
Qed.

Lemma filter_swap (A : Type) (p q : A -> bool) (xs : list A) :
  filter p (filter q xs) = filter q (filter p xs).
Proof.
  induction xs as [|x xs IH]; simpl; [reflexivity|].
  destruct (q x) eqn:Hq, (p x) eqn:Hp; simpl; rewrite ?Hq, ?Hp, IH;
    reflexivity.
Qed.

Lemma filter_same (A : Type) (p q : A -> bool) (xs : list A) :
  (forall x, In x xs -> p x = q x) -> filter p xs = filter q xs.
Proof.
  induction xs as [|x xs IH]; simpl; intros H; [reflexivity|].
  rewrite (H x (or_introl eq_refl)), IH; [reflexivity|].
  intros y Hy. apply H. now right.
Qed.

Lemma filter_keeps_all (A : Type) (p : A -> bool) (xs : list A) :
  (forall x, In x xs -> p x = true) -> filter p xs = xs.
Proof.
  induction xs as [|x xs IH]; simpl; intros H; [reflexivity|].
  rewrite (H x (or_introl eq_refl)). f_equal. apply IH. intros y Hy.
  apply H. now right.
Qed.

(** Looking a command up after an upsert gives the upserted descriptor, and
    the descriptors of every other command are what they were, in the same
    order. *)
Theorem upsert_lookup (u : ParsedCommandDto) (store : list ParsedCommandDto) :
  find (findByCommand u) (_addOrUpdateDto u store) = Some u
  /\ forall c : string,
      c <> command u ->
      filter (fun d => String.eqb (command d) c) (_addOrUpdateDto u store)
      = filter (fun d => String.eqb (command d) c) store.
Proof.
  rewrite _addOrUpdateDto_eq. split.
  - induction store as [|d store IH]; simpl.
    + now rewrite findByCommand_refl.
    + destruct (findByCommand u d) eqn:Hd; simpl; [exact IH|].
      now rewrite Hd.
  - intros c Hc. rewrite filter_app. simpl.
    destruct (String.eqb_spec (command u) c) as [E|_]; [now elim Hc|].
    rewrite app_nil_r, filter_swap. apply filter_keeps_all.
    intros d Hd. apply filter_In in Hd. destruct Hd as [_ Hd].
    apply String.eqb_eq in Hd. unfold findByCommand.
    destruct (String.eqb_spec (command d) (command u)) as [E|_];
      [|reflexivity].
    elim Hc. now rewrite <- Hd.
Qed.

(** An upsert removes as many entries as the store had for the command and
    adds one: on a new command the store grows by one, on a store with
    distinct commands an update keeps its size. *)
Theorem upsert_size (u : ParsedCommandDto) (store : list ParsedCommandDto) :
  (List.length (_addOrUpdateDto u store)
   + List.length (filter (findByCommand u) store)
   = S (List.length store))%nat.
Proof.
  rewrite _addOrUpdateDto_eq, length_app. simpl.
  pose proof (filter_split_length (findByCommand u) store). lia.
Qed.

(** Upserts of two different commands reach the same descriptors in either
    order; only the order of the last two entries differs. *)
Theorem upsert_commute (a b : ParsedCommandDto)
        (store : list ParsedCommandDto) :
  command a <> command b ->
  exists rest : list ParsedCommandDto,
    _addOrUpdateDto a (_addOrUpdateDto b store) = rest ++ [b; a]
    /\ _addOrUpdateDto b (_addOrUpdateDto a store) = rest ++ [a; b].
Proof.
  intros Hab.
  exists (filter (fun e => negb (findByCommand a e))
                 (filter (fun e => negb (findByCommand b e)) store)).
  assert (Hba : findByCommand a b = false).
  { unfold findByCommand. apply String.eqb_neq. congruence. }
  assert (Hab' : findByCommand b a = false).
  { unfold findByCommand. now apply String.eqb_neq. }
  rewrite !_addOrUpdateDto_eq, !filter_app. simpl.
  rewrite Hba, Hab'. simpl. rewrite <- !app_assoc. simpl.
  split; [reflexivity|]. f_equal. apply filter_swap.
Qed.

Lemma upsert_commute_witness :
  exists rest : list ParsedCommandDto,
    _addOrUpdateDto (mkDto "list" [] None)
                    (_addOrUpdateDto (mkDto "deploy" ["-f"] None)
                                     [mkDto "list" ["-a"] None])
    = rest ++ [mkDto "deploy" ["-f"] None; mkDto "list" [] None]
    /\ _addOrUpdateDto (mkDto "deploy" ["-f"] None)
                       (_addOrUpdateDto (mkDto "list" [] None)
                                        [mkDto "list" ["-a"] None])
       = rest ++ [mkDto "list" [] None; mkDto "deploy" ["-f"] None].
Proof.
  apply (@upsert_commute (mkDto "list" [] None)
                         (mkDto "deploy" ["-f"] None)
                         [mkDto "list" ["-a"] None]).
  discriminate.
Defined.

(** ** What a discovery does and does not do *)

(** The world right after a help invocation was made and announced. *)
Lemma execCliHelp_cases {imports : Imports} (command : option string)
      (w : World) :
  _execCliHelp command w
  = if helpSucceeds command
    then Returned (helpText command)
                  (withEffects
                     [ Shell_exec (cmd command)
                     ; Echo_message
                         ("Running " ++ purple (cmd command)
                            ++ " for commands and options...") None ] w)
    else Exited 1 (failedHelp command w).
Proof.
  unfold _execCliHelp, helpSucceeds, failedHelp, helpText, withEffects, emit.
  cbn [effects _dtos _options cacheFile].
  destruct (code (shell_exec (cmd command)) =? 0)%Z;
    destruct (hasValue (Some (stderr (shell_exec (cmd command)))));
    cbn [negb orb andb]; rewrite <- !app_assoc; reflexivity.
Qed.

Lemma later_refl (w : World) : later w w.
Proof. split; [reflexivity|]. exists []. now rewrite app_nil_r. Qed.

Lemma later_trans (a b c : World) : later a b -> later b c -> later a c.
Proof.
  intros [Hf1 [e1 He1]] [Hf2 [e2 He2]]. split; [congruence|].
  exists (e1 ++ e2). now rewrite He2, He1, app_assoc.
Qed.

Lemma forEach_later (A : Type)
      (body : A -> World -> option (Outcome unit)) (xs : list A) :
  (forall x w out, body x w = Some out -> later w (worldOf out)) ->
  forall w out, forEach body xs w = Some out -> later w (worldOf out).
Proof.
  intros Hbody. induction xs as [|x xs IH]; intros w out; cbn [forEach].
  - same_outcome out. apply later_refl.
  - destruct (body x w) as [[[] w1|c w1]|] eqn:Hx; [| |discriminate].
    + intros H. apply later_trans with (b := w1).
      * exact (Hbody x w _ Hx).
      * now apply IH.
    + same_outcome out. exact (Hbody x w _ Hx).
Qed.

Lemma parseChildrenAndOptions_later {imports : Imports} (fuel : nat) :
  forall (command : option string) (w : World) (out : Outcome unit),
    _parseChildrenAndOptions fuel command w = Some out ->
    later w (worldOf out).
Proof.
  induction fuel as [|fuel IH]; intros command w out; [discriminate|].
  cbn [_parseChildrenAndOptions]. rewrite execCliHelp_cases.
  destruct (helpSucceeds command).
  - set (w1 := withEffects _ w).
    assert (Hw1 : later w w1).
    { split; [reflexivity|]. now eexists. }
    match goal with
    | |- match forEach ?body ?xs ?w0 with _ => _ end = _ -> _ =>
        pose proof (@forEach_later string body xs) as Heach;
        destruct (forEach body xs w0) as [[[] w2|c w2]|] eqn:E
    end; [| |discriminate].
    + assert (Hw2 : later w1 w2).
      { apply (Heach) with (w := w1) (out := Returned tt w2); [|exact E].
        intros child w0 out0. destruct (hasValue command); apply IH. }
      destruct (isEmpty command).
      * same_outcome out. now apply later_trans with (b := w1).
      * destruct command as [fullCommand|]; same_outcome out.
        -- apply later_trans with (b := w1); [exact Hw1|].
           apply later_trans with (b := w2); [exact Hw2|].
           split; [reflexivity|]. exists []. cbn. now rewrite app_nil_r.
        -- now apply later_trans with (b := w1).
    + same_outcome out. apply later_trans with (b := w1); [exact Hw1|].
      apply (Heach) with (w := w1) (out := Exited c w2); [|exact E].
      intros child w0 out0. destruct (hasValue command); apply IH.
  - same_outcome out. split; [reflexivity|]. now eexists.
Qed.

Lemma upsert_keeps_commands (u d : ParsedCommandDto)
      (store : list ParsedCommandDto) :
  In d store -> In (command d) (map command (_addOrUpdateDto u store)).
Proof.
  intros Hd. rewrite _addOrUpdateDto_eq, map_app. apply in_or_app.
  destruct (findByCommand u d) eqn:Hud.
  - right. left. unfold findByCommand in Hud.
    now apply String.eqb_eq in Hud.
  - left. apply in_map. apply filter_In. now rewrite Hud.
Qed.

Lemma records_keeps_commands {imports : Imports} (o : ListCommandsOptions)
      (command' : option string) (a b : list ParsedCommandDto) :
  records o command' a b -> incl (map command a) (map command b).
Proof.
  induction 1 as [|a b path Hab IH Hpath Hfull]; [apply incl_refl|].
  intros c Hc. apply IH in Hc. apply in_map_iff in Hc.
  destruct Hc as [d [<- Hd]]. now apply upsert_keeps_commands.
Qed.

Lemma upsert_NoDup (u : ParsedCommandDto) (store : list ParsedCommandDto) :
  NoDup (map command store) ->
  NoDup (map command (_addOrUpdateDto u store)).
Proof.
  intros Hnd. rewrite _addOrUpdateDto_eq, map_app. simpl.
  apply NoDup_app.
  - now apply NoDup_map_filter.
  - constructor; [intros []|constructor].
  - intros c Hc [Hd|[]]. subst c. apply in_map_iff in Hc.
    destruct Hc as [e [He Hin]]. apply filter_In in Hin.
    destruct Hin as [_ Hneq]. unfold findByCommand in Hneq.
    rewrite He, String.eqb_refl in Hneq. discriminate.
Qed.

Lemma records_NoDup {imports : Imports} (o : ListCommandsOptions)
      (command' : option string) (a b : list ParsedCommandDto) :
  records o command' a b ->
  NoDup (map command a) -> NoDup (map command b).
Proof.
  induction 1 as [|a b path Hab IH Hpath Hfull]; [auto|].
  intros Ha. apply upsert_NoDup. auto.
Qed.

(** A discovery, however it ends, leaves the options and the cache file as
    they were, only adds to what was echoed and executed, and loses no
    command: every command of the store before is a command of the store
    after. *)
Theorem discovery_only_adds {imports : Imports} (fuel : nat)
        (invoked : option string) (w : World) (out : Outcome unit) :
  _parseChildrenAndOptions fuel invoked w = Some out ->
  _options (worldOf out) = _options w
  /\ cacheFile (worldOf out) = cacheFile w
  /\ (exists added, effects (worldOf out) = effects w ++ added)
  /\ incl (map command (_dtos w)) (map command (_dtos (worldOf out))).
Proof.
  intros Hout.
  destruct (parseChildrenAndOptions_records fuel invoked w Hout)
    as [Hoptions Hrecords].
  destruct (parseChildrenAndOptions_later fuel invoked w Hout)
    as [Hfile Heffects].
  repeat split; auto.
  now apply records_keeps_commands in Hrecords.
Qed.

Lemma discovery_only_adds_witness :
  exists out : Outcome unit,
    @_parseChildrenAndOptions stubImports 5 (Some "deploy")
       (mkWorld [mkDto "list" [] None] DEFAULT_OPTIONS [] (FileContents "[x"))
    = Some out
    /\ cacheFile (worldOf out) = FileContents "[x"
    /\ incl ["list"] (map command (_dtos (worldOf out))).
Proof.
  assert (E : exists out,
             @_parseChildrenAndOptions stubImports 5 (Some "deploy")
               (mkWorld [mkDto "list" [] None] DEFAULT_OPTIONS []
                        (FileContents "[x"))
             = Some out)
    by (vm_compute; eexists; reflexivity).
  destruct E as [out E]. exists out. split; [exact E|].
  destruct (@discovery_only_adds
              stubImports 5 (Some "deploy")
              (mkWorld [mkDto "list" [] None] DEFAULT_OPTIONS []
                       (FileContents "[x")) out E)
    as [_ [Hfile [_ Hincl]]].
  split; [exact Hfile|exact Hincl].
Defined.

(** A discovery started on a store whose commands are pairwise distinct
    ends, however it ends, on a store whose commands are pairwise
    distinct. *)
Theorem discovery_keeps_commands_unique {imports : Imports} (fuel : nat)
        (invoked : option string) (w : World) (out : Outcome unit) :
  NoDup (map command (_dtos w)) ->
  _parseChildrenAndOptions fuel invoked w = Some out ->
  NoDup (map command (_dtos (worldOf out))).
Proof.
  intros Hnd Hout.
  destruct (parseChildrenAndOptions_records fuel invoked w Hout)
    as [_ Hrecords].
  now apply (records_NoDup Hrecords).
Qed.

Lemma discovery_keeps_commands_unique_witness :
  exists out : Outcome unit,
    @parse stubImports 5
       (mkWorld [mkDto "deploy" ["--old"] (Some "x")] DEFAULT_OPTIONS []
                FileMissing)
    = Some out
    /\ NoDup (map command (_dtos (worldOf out))).
Proof.
  assert (E : exists out,
             @parse stubImports 5
               (mkWorld [mkDto "deploy" ["--old"] (Some "x")]
                        DEFAULT_OPTIONS [] FileMissing)
             = Some out)
    by (vm_compute; eexists; reflexivity).
  destruct E as [out E]. exists out. split; [exact E|].
  apply (@discovery_keeps_commands_unique
           stubImports 5 None
           (mkWorld [mkDto "deploy" ["--old"] (Some "x")]
                    DEFAULT_OPTIONS [] FileMissing) out);
    [|exact E].
  simpl. repeat constructor. intros [].
Defined.

Lemma forEach_exited (A : Type) (Q : Z -> World -> Prop)
      (body : A -> World -> option (Outcome unit)) (xs : list A) :
  (forall x w c w', body x w = Some (Exited c w') -> Q c w') ->
  forall w c w', forEach body xs w = Some (Exited c w') -> Q c w'.
Proof.
  intros Hbody. induction xs as [|x xs IH]; intros w c w'; cbn [forEach];
    [discriminate|].
  destruct (body x w) as [[[] w1|c1 w1]|] eqn:Hx; [| |discriminate].
  - apply IH.
  - intros H. inversion H; subst c1 w1. exact (Hbody x w c w' Hx).
Qed.

Lemma parseChildrenAndOptions_exited {imports : Imports} (fuel : nat) :
  forall (invoked : option string) (w w' : World) (status : Z),
    _parseChildrenAndOptions fuel invoked w = Some (Exited status w') ->
    status = 1%Z
    /\ exists (failing : option string) (before : World),
        helpSucceeds failing = false
        /\ w' = failedHelp failing before.
Proof.
  induction fuel as [|fuel IH]; intros invoked w w' status; [discriminate|].
  cbn [_parseChildrenAndOptions]. rewrite execCliHelp_cases.
  destruct (helpSucceeds invoked) eqn:Hhelp.
  - match goal with
    | |- match forEach ?body ?xs ?w0 with _ => _ end = _ -> _ =>
        pose proof (@forEach_exited
                      string
                      (fun c w1 =>
                         c = 1%Z
                         /\ exists failing before,
                             helpSucceeds failing = false
                             /\ w1 = failedHelp failing before)
                      body xs) as Heach;
        destruct (forEach body xs w0) as [[[] w2|c w2]|] eqn:E
    end; [| |discriminate].
    + destruct (isEmpty invoked); [discriminate|].
      destruct invoked; discriminate.
    + intros H. inversion H; subst c w2.
      apply Heach with (w := withEffects
                               [ Shell_exec (cmd invoked)
                               ; Echo_message
                                   ("Running " ++ purple (cmd invoked)
                                      ++ " for commands and options...")
                                   None ] w); [|exact E].
      intros child w0 c0 w1. destruct (hasValue invoked); apply IH.
  - intros H. inversion H; subst status w'. split; [reflexivity|].
    now exists invoked, w.
Qed.



Lemma forEach_returns {imports : Imports} (o : ListCommandsOptions)
      (body : string -> World -> option (Outcome unit)) (xs : list string) :
  (forall x w,
      In x xs -> _options w = o ->
      exists w', body x w = Some (Returned tt w') /\ _options w' = o) ->
  forall w,
    _options w = o ->
    exists w', forEach body xs w = Some (Returned tt w') /\ _options w' = o.
Proof.
  induction xs as [|x xs IH]; intros Hbody w Ho; cbn [forEach].
  - now exists w.
  - destruct (Hbody x w (or_introl eq_refl) Ho) as [w1 [Hx Ho1]].
    rewrite Hx. apply IH; [|exact Ho1].
    intros y w0 Hy. apply Hbody. now right.
Qed.

(** Termination on a finite tree: when below the invoked command every
    help invocation succeeds and the tree is less than [fuel] levels deep,
    the discovery returns (it neither runs on nor ends the process). *)
Theorem discovery_completes {imports : Imports} (fuel : nat) :
  forall (invoked : option string) (w : World),
    exploresWithin (_options w) fuel invoked = true ->
    exists w', _parseChildrenAndOptions fuel invoked w
               = Some (Returned tt w').
Proof.
  induction fuel as [|fuel IH]; intros invoked w; [discriminate|].
  cbn [exploresWithin _parseChildrenAndOptions].
  intros H. apply andb_true_iff in H. destruct H as [Hhelp Hchildren].
  rewrite execCliHelp_cases, Hhelp.
  set (w1 := withEffects _ w).
  assert (Ho1 : _options w1 = _options w) by reflexivity.
  match goal with
  | |- exists w', match forEach ?body ?xs ?w0 with _ => _ end = _ =>
      destruct (@forEach_returns imports (_options w) body xs) with (w := w0)
        as [w2 [Heach Ho2]]
  end.
  - intros child w0 Hchild Ho.
    rewrite forallb_forall in Hchildren. specialize (Hchildren child Hchild).
    assert (Hrun : exists w',
               _parseChildrenAndOptions
                 fuel (Some (childPath invoked child)) w0
               = Some (Returned tt w')).
    { apply IH. now rewrite Ho. }
    destruct Hrun as [w' Hrun]. exists w'.
    split.
    + unfold childPath in Hrun. now destruct (hasValue invoked).
    + apply parseChildrenAndOptions_records in Hrun.
      destruct Hrun as [Hsame _]. cbn [worldOf] in Hsame. congruence.
  - exact Ho1.
  - rewrite Heach. destruct (isEmpty invoked); [now eexists|].
    destruct invoked; now eexists.
Qed.

Lemma discovery_completes_witness :
  exists w' : World,
    @_parseChildrenAndOptions stubImports 3 None emptyWorld
    = Some (Returned tt w').
Proof.
  apply (@discovery_completes stubImports 3 None emptyWorld).
  vm_compute. reflexivity.
Defined.

(** No depth guard: when every help invocation succeeds and every help
    text lists at least one child, a discovery never returns, whatever the
    fuel. *)
Theorem discovery_endless {imports : Imports} (o : ListCommandsOptions) :
  (forall invoked : option string,
      helpSucceeds invoked = true
      /\ _parseChildren o (helpText invoked) <> []) ->
  forall (fuel : nat) (invoked : option string) (w : World),
    _options w = o -> _parseChildrenAndOptions fuel invoked w = None.
Proof.
  intros Hloop fuel. induction fuel as [|fuel IH]; intros invoked w Ho;
    [reflexivity|].
  cbn [_parseChildrenAndOptions]. rewrite execCliHelp_cases.
  destruct (Hloop invoked) as [Hhelp Hchildren]. rewrite Hhelp.
  cbn [withEffects _options]. rewrite Ho.
  destruct (_parseChildren o (helpText invoked)) as [|child rest];
    [now elim Hchildren|].
  cbn [forEach].
  destruct (hasValue invoked); rewrite IH; auto.
Qed.

Lemma discovery_endless_witness :
  @parse endlessImports 1000 emptyWorld = None.
Proof.
  apply (@discovery_endless endlessImports DEFAULT_OPTIONS);
    [|reflexivity].
  intros invoked. split; [reflexivity|discriminate].
Defined.

(** ** The cache and the run *)

(** Cache hit: when the cache is not skipped and the file deserializes to a
    store that is not empty, that store is taken as it is and nothing is
    discovered: the help-text provider is not called, whatever the fuel. *)
Theorem cache_hit_skips_discovery {imports : Imports} (fuel : nat)
        (w : World) (text : string) (dtos : list ParsedCommandDto) :
  skipCache (_options w) = false ->
  cacheFile w = FileContents text ->
  JSON_parse text = inr dtos ->
  dtos <> [] ->
  parseOrReadCache fuel w
  = Some (Returned
            tt
            (mkWorld dtos (_options w)
                     (effects w
                        ++ [Echo_message
                              "Found command list cache, attempting to read..."
                              None])
                     (cacheFile w))).
Proof.
  intros Hskip Hfile Hparse Hdtos.
  destruct w as [store o eff file]. cbn [cacheFile _options] in *.
  subst file. unfold parseOrReadCache, readCachedFile.
  cbn [cacheFile _options]. rewrite Hskip, Hparse.
  destruct dtos as [|d dtos]; [now elim Hdtos|]. reflexivity.
Qed.

Lemma cache_hit_skips_discovery_witness :
  @parseOrReadCache cachedImports 0
     (mkWorld [] DEFAULT_OPTIONS [] (FileContents "[...]"))
  = Some (Returned
            tt
            (mkWorld cachedStore DEFAULT_OPTIONS
                     [Echo_message
                        "Found command list cache, attempting to read..."
                        None]
                     (FileContents "[...]"))).
Proof.
  apply (@cache_hit_skips_discovery
           cachedImports 0
           (mkWorld [] DEFAULT_OPTIONS [] (FileContents "[...]"))
           "[...]" cachedStore);
    solve [reflexivity | discriminate].
Defined.

(** A cache file that deserializes to the empty store counts as a miss:
    [skipCache] becomes true and the full discovery runs. *)
Theorem empty_cache_is_a_miss {imports : Imports} (fuel : nat)
        (w : World) (text : string) :
  skipCache (_options w) = false ->
  cacheFile w = FileContents text ->
  JSON_parse text = inr [] ->
  parseOrReadCache fuel w
  = parse fuel
          (recovered
             [Echo_message
                "Found command list cache, attempting to read..." None] w).
Proof.
  intros Hskip Hfile Hparse. unfold parseOrReadCache, readCachedFile.
  rewrite Hskip, Hfile, Hparse.
  destruct w as [dtos o eff file]. destruct o. reflexivity.
Qed.

Lemma empty_cache_is_a_miss_witness :
  @parseOrReadCache stubImports 5
     (mkWorld [] DEFAULT_OPTIONS [] (FileContents "[]"))
  = @parse stubImports 5
       (recovered
          [Echo_message
             "Found command list cache, attempting to read..." None]
          (mkWorld [] DEFAULT_OPTIONS [] (FileContents "[]"))).
Proof.
  apply (@empty_cache_is_a_miss
           stubImports 5
           (mkWorld [] DEFAULT_OPTIONS [] (FileContents "[]")) "[]");
    reflexivity.
Defined.



Lemma readCachedFile_later {imports : Imports} (w : World) :
  later w (readCachedFile w).
Proof.
  unfold readCachedFile, later.
  destruct (cacheFile w) as [|error|text] eqn:Hfile;
    [| |destruct (JSON_parse text)];
    cbn [emit resetCache setDtos cacheFile effects]; rewrite ?Hfile;
    rewrite <- ?app_assoc; split; try reflexivity; now eexists.
Qed.

Lemma parseOrReadCache_later {imports : Imports} (fuel : nat) (w : World)
      (out : Outcome unit) :
  parseOrReadCache fuel w = Some out -> later w (worldOf out).
Proof.
  unfold parseOrReadCache, parse.
  destruct (skipCache (_options w)).
  - intros H. apply parseChildrenAndOptions_later in H.
    apply later_trans with (2 := H). split; [reflexivity|]. now eexists.
  - pose proof (readCachedFile_later w) as Hread.
    destruct (hasValues (_dtos (readCachedFile w))).
    + now same_outcome out.
    + intros H. apply parseChildrenAndOptions_later in H.
      apply later_trans with (2 := H). apply later_trans with (1 := Hread).
      split; [reflexivity|]. exists []. cbn. now rewrite app_nil_r.
Qed.

Lemma parseOrReadCache_exited {imports : Imports} (fuel : nat) (w w' : World)
      (status : Z) :
  parseOrReadCache fuel w = Some (Exited status w') -> status = 1%Z.
Proof.
  unfold parseOrReadCache, parse.
  destruct (skipCache (_options w)).
  - intros H. now apply parseChildrenAndOptions_exited in H.
  - destruct (hasValues (_dtos (readCachedFile w))); [discriminate|].
    intros H. now apply parseChildrenAndOptions_exited in H.
Qed.

(** A run that ends the process ends it with status 1, and in one of two
    ways: the discovery ended it, and then nothing was printed or written
    and the cache file is the one the run started with; or the discovery
    and the printing were done and writing the cache file failed. *)
Theorem run_exits_with_status_1 {imports : Imports} {disk : Disk}
        (fuel : nat) (options : PartialOptions) (w w' : World)
        (status : Z) :
  run fuel options w = Some (Exited status w') ->
  let started :=
    mkWorld (_dtos w) (setOptions options (_options w)) (effects w)
            (cacheFile w) in
  status = 1%Z
  /\ ((parseOrReadCache fuel started = Some (Exited 1 w')
       /\ cacheFile w' = cacheFile w)
      \/ exists discovered printed : World,
          parseOrReadCache fuel started = Some (Returned tt discovered)
          /\ print fuel (_dtos discovered) 0 discovered = Some printed
          /\ saveCachedFile printed = Exited 1 w').
Proof.
  intros H started. unfold run in H. cbv zeta in H. fold started in H.
  destruct (parseOrReadCache fuel started) as [[[] w1|c w1]|] eqn:Hdiscover;
    [| |discriminate].
  - destruct (print fuel (_dtos w1) 0 w1) as [w2|] eqn:Hprint;
      [|discriminate].
    assert (Hstatus : status = 1%Z).
    { unfold saveCachedFile in H.
      destruct (writeCache _ _ _); [discriminate|]. now inversion H. }
    subst status. split; [reflexivity|]. right. exists w1, w2.
    repeat split; auto. now inversion H.
  - inversion H; subst c w1.
    pose proof (parseOrReadCache_exited _ _ Hdiscover) as Hstatus.
    subst status. split; [reflexivity|]. left. split; [reflexivity|].
    now destruct (parseOrReadCache_later _ _ Hdiscover) as [Hfile _].
Qed.

Lemma run_exits_with_status_1_witness :
  exists w' : World,
    @run stubImports fullDisk 5 (mkPartialOptions None None None None None)
         emptyWorld
    = Some (Exited 1 w')
    /\ exists discovered printed : World,
        @print stubImports 5 (_dtos discovered) 0 discovered = Some printed
        /\ @saveCachedFile stubImports fullDisk printed = Exited 1 w'.
Proof.
  assert (E : exists w',
             @run stubImports fullDisk 5
                  (mkPartialOptions None None None None None) emptyWorld
             = Some (Exited 1 w'))
    by (vm_compute; eexists; reflexivity).
  destruct E as [w' E]. exists w'. split; [exact E|].
  destruct (@run_exits_with_status_1
              stubImports fullDisk 5
              (mkPartialOptions None None None None None) emptyWorld w' 1%Z E)
    as [_ [[Hdiscovery _]|[discovered [printed [_ [Hprint Hsave]]]]]].
  - exfalso. vm_compute in Hdiscovery. discriminate.
  - exists discovered, printed. split; [exact Hprint|exact Hsave].
Defined.

(** A run that returns has written the store it ends with to the cache
    file; so, provided [JSON.parse] reads back what [JSON.stringify] wrote
    and the store is not empty, a later process that does not skip the
    cache takes that store from the file without calling the provider. *)
Theorem run_persists_for_later_runs {imports : Imports} {disk : Disk}
        (fuel : nat) (options : PartialOptions) (w w' : World) :
  run fuel options w = Some (Returned tt w') ->
  JSON_parse (JSON_stringify (_dtos w')) = inr (_dtos w') ->
  _dtos w' <> [] ->
  cacheFile w' = FileContents (JSON_stringify (_dtos w'))
  /\ forall fuel' : nat,
      parseOrReadCache fuel' (mkWorld [] DEFAULT_OPTIONS [] (cacheFile w'))
      = Some (Returned
                tt
                (mkWorld (_dtos w') DEFAULT_OPTIONS
                         [Echo_message
                            "Found command list cache, attempting to read..."
                            None]
                         (cacheFile w'))).
Proof.
  unfold run. intros H Hjson Hstore.
  destruct (parseOrReadCache fuel _) as [[[] w1|c w1]|]; [| |discriminate];
    [|discriminate].
  destruct (print fuel (_dtos w1) 0 w1) as [w2|]; [|discriminate].
  unfold saveCachedFile in H. cbn [emit _dtos cacheFile] in H.
  destruct (writeCache _ _ _); [|discriminate].
  inversion H; subst w'. clear H.
  cbn [emit setCacheFile _dtos cacheFile] in *.
  split; [reflexivity|]. intros fuel'.
  unfold parseOrReadCache, readCachedFile.
  cbn [DEFAULT_OPTIONS skipCache _options cacheFile]. rewrite Hjson.
  destruct (_dtos w2); [now elim Hstore|]. reflexivity.
Qed.

Lemma run_persists_for_later_runs_witness :
  exists w' : World,
    @run cachedImports stubDisk 5
         (mkPartialOptions None None None None None)
         (mkWorld [] DEFAULT_OPTIONS [] (FileContents "[...]"))
    = Some (Returned tt w')
    /\ cacheFile w' = FileContents "[...]"
    /\ @parseOrReadCache cachedImports 0
          (mkWorld [] DEFAULT_OPTIONS [] (cacheFile w'))
       = Some (Returned
                 tt
                 (mkWorld (_dtos w') DEFAULT_OPTIONS
                          [Echo_message
                             "Found command list cache, attempting to read..."
                             None]
                          (cacheFile w'))).
Proof.
  eexists. split; [vm_compute; reflexivity|].
  match goal with
  | |- cacheFile ?w' = _ /\ _ =>
      destruct (@run_persists_for_later_runs
                  cachedImports stubDisk 5
                  (mkPartialOptions None None None None None)
                  (mkWorld [] DEFAULT_OPTIONS [] (FileContents "[...]")) w')
        as [Hfile Hlater]
  end.
  - vm_compute. reflexivity.
  - reflexivity.
  - discriminate.
  - split; [exact Hfile|]. apply Hlater.
Defined.

(** ** What the printing echoes *)

Lemma printOptions_lines {imports : Imports} (dto : ParsedCommandDto)
      (indent : nat) (w : World) :
  printOptions dto indent w
  = withEffects (optionLines (_options w) dto indent) w.
Proof.
  unfold printOptions, optionLines. generalize (options dto) as opts.
  intros opts. revert w.
  induction opts as [|opt opts IH]; intros w; cbn [fold_left map].
  - now rewrite withEffects_nil.
  - rewrite IH. unfold printOption, _echoFormatted.
    apply (withEffects_app [_] _ w).
Qed.


Lemma formattedFrom_deeper (o : ListCommandsOptions) (indent more : nat)
      (e : Effect) :
  formattedFrom o (indent + more) e -> formattedFrom o indent e.
Proof.
  intros [deeper [value He]]. exists (more + deeper), value.
  now rewrite Nat.add_assoc.
Qed.

Lemma formattedFrom_here (o : ListCommandsOptions) (indent : nat)
      (value : string) :
  formattedFrom o indent
                (Echo_message (repeat_space indent ++ prefix o ++ value)
                              (Some false)).
Proof. exists 0%nat, value. now rewrite Nat.add_0_r. Qed.

Lemma print_formats {imports : Imports} (fuel : nat) :
  forall (dtos : list ParsedCommandDto) (indent : nat) (w w' : World),
    print fuel dtos indent w = Some w' ->
    exists added,
      w' = withEffects added w
      /\ Forall (formattedFrom (_options w) indent) added.
Proof.
  induction fuel as [|fuel IH]; intros dtos indent w w'; [discriminate|].
  rewrite print_unfold.
  generalize (_getParentCommandsOrDefault dtos) as roots.
  intros roots. revert w.
  induction roots as [|r roots IHroots]; intros w; cbn [forEachEcho].
  - intros H. inversion H; subst w'. exists []. split; [|constructor].
    now rewrite withEffects_nil.
  - destruct (printCommand fuel r indent w) as [w1|] eqn:Hr; [|discriminate].
    intros Hrest. unfold printCommand in Hr.
    rewrite printOptions_lines in Hr. apply IH in Hr.
    destruct Hr as [inner [Hw1 Hinner]].
    destruct (IHroots w1 Hrest) as [rest [Hw' Hrest']].
    unfold _echoFormatted, emit in Hw1.
    match type of Hw1 with
    | w1 = withEffects inner (withEffects ?lines (mkWorld _ _ (_ ++ [?line]) _)) =>
        assert (Hblock : w1 = withEffects (line :: lines ++ inner) w)
    end.
    { rewrite Hw1. unfold withEffects. cbn [_dtos _options effects cacheFile].
      now rewrite <- !app_assoc. }
    exists ((commandLine (_options w) r indent
               :: optionLines (_options w) r (indent + indentStep (_options w))
               ++ inner) ++ rest).
    split.
    + rewrite Hw', Hblock, withEffects_app. reflexivity.
    + apply Forall_app. split.
      * constructor; [apply formattedFrom_here|].
        apply Forall_app. split.
        -- unfold optionLines. apply Forall_forall. intros e He.
           apply in_map_iff in He. destruct He as [opt [<- _]].
           apply formattedFrom_deeper with (more := indentStep (_options w)).
           apply formattedFrom_here.
        -- revert Hinner. apply Forall_impl. intros e He.
           now apply formattedFrom_deeper in He.
      * rewrite Hblock in Hrest'. exact Hrest'.
Qed.

(** Printing is read-only: a printing that completes leaves the store, the
    options and the cache file as they were, calls no provider and reports
    no error; all it adds are lines echoed through [_echoFormatted], each
    indented by at least the requested indent and carrying the prefix. *)
Theorem print_only_echoes_lines {imports : Imports} (fuel : nat)
        (dtos : list ParsedCommandDto) (indent : nat) (w w' : World) :
  print fuel dtos indent w = Some w' ->
  _dtos w' = _dtos w
  /\ _options w' = _options w
  /\ cacheFile w' = cacheFile w
  /\ exists added,
      effects w' = effects w ++ added
      /\ Forall (formattedFrom (_options w) indent) added.
Proof.
  intros H. apply print_formats in H. destruct H as [added [-> Hadded]].
  repeat split. now exists added.
Qed.

Lemma print_only_echoes_lines_witness :
  exists w' : World,
    @print stubImports 3 cachedStore 2
           (mkWorld cachedStore DEFAULT_OPTIONS [] FileMissing)
    = Some w'
    /\ exists added,
        effects w' = [] ++ added
        /\ Forall (formattedFrom DEFAULT_OPTIONS 2) added.
Proof.
  eexists. split; [vm_compute; reflexivity|].
  match goal with
  | |- exists added, effects ?w' = _ /\ _ =>
      exact (proj2 (proj2 (proj2
               (@print_only_echoes_lines
                  stubImports 3 cachedStore 2
                  (mkWorld cachedStore DEFAULT_OPTIONS [] FileMissing) w'
                  eq_refl))))
  end.
Defined.



(** ** Options *)

(** [setOptions] overlays: with nothing to update it changes nothing (the
    defaults never replace a current option), and two updates in a row are
    the update by the second laid over the first. *)
Theorem setOptions_overlays :
  (forall o : ListCommandsOptions,
      setOptions (mkPartialOptions None None None None None) o = o)
  /\ (forall (first second : PartialOptions) (o : ListCommandsOptions),
         setOptions second (setOptions first o)
         = setOptions
             (mkPartialOptions
                (spreadField (o_includeHelp first) (o_includeHelp second))
                (spreadField (o_indent first) (o_indent second))
                (spreadField (o_useColor first) (o_useColor second))
                (spreadField (o_prefix first) (o_prefix second))
                (spreadField (o_skipCache first) (o_skipCache second)))
             o).
Proof.
  split.
  - intros o. now destruct o.
  - intros [h1 i1 c1 p1 s1] [h2 i2 c2 p2 s2] o. unfold setOptions.
    destruct h2, i2, c2, p2, s2; reflexivity.
Qed.

(** ** Where the extracted tokens come from *)

(** The elements of a slice with bounds that are not negative are the
    elements at the indices from the lower bound up to, and without, the
    upper bound. *)
Lemma In_slice (A : Type) (xs : list A) (start stop : Z) (x : A) :
  (0 <= start)%Z -> (0 <= stop)%Z ->
  In x (slice xs start stop)
  <-> exists i : nat,
      nth_error xs i = Some x /\ (start <= Z.of_nat i < stop)%Z.
Proof.
  intros Hstart Hstop. unfold slice, relative_index.
  destruct (start <? 0)%Z eqn:E1; [apply Z.ltb_lt in E1; lia|].
  destruct (stop <? 0)%Z eqn:E2; [apply Z.ltb_lt in E2; lia|].
  set (len := Z.of_nat (List.length xs)).
  split.
  - intros Hin. apply In_nth_error in Hin. destruct Hin as [j Hj].
    rewrite nth_error_firstn in Hj.
    destruct (Nat.ltb_spec j (Z.to_nat (Z.min stop len - Z.min start len)))
      as [Hlt|_]; [|discriminate].
    rewrite nth_error_skipn in Hj.
    exists (Z.to_nat (Z.min start len) + j)%nat. split; [exact Hj|].
    assert (Hi : (Z.to_nat (Z.min start len) + j < List.length xs)%nat).
    { apply nth_error_Some. now rewrite Hj. }
    subst len. lia.
  - intros [i [Hi Hrange]].
    assert (Hlen : (i < List.length xs)%nat).
    { apply nth_error_Some. now rewrite Hi. }
    apply nth_error_In with (n := (i - Z.to_nat (Z.min start len))%nat).
    rewrite nth_error_firstn.
    destruct (Nat.ltb_spec (i - Z.to_nat (Z.min start len))
                           (Z.to_nat (Z.min stop len - Z.min start len)))
      as [_|Hge]; [|subst len; lia].
    rewrite nth_error_skipn.
    replace (Z.to_nat (Z.min start len) + (i - Z.to_nat (Z.min start len)))%nat
      with i by (subst len; lia).
    exact Hi.
Qed.

Lemma In_strings (xs : list (option string))
      (s : string) :
  In s (strings xs) <-> In (Some s) xs.
Proof.
  induction xs as [|[x|] xs IH]; cbn [strings In].
  - tauto.
  - rewrite IH. split; intros [H|H]; auto; left; congruence.
  - rewrite IH. split; [auto|]. intros [H|H]; [discriminate|auto].
Qed.

(** A string is extracted exactly when it is the piece after the first
    two-space separator of a line that lies after the first line with the
    start marker and not after the first line with the end marker, has no
    tab and no alias prefix in it, and when the piece has a value; unless
    [includeHelp] is set, the two help sentinels are never extracted. *)
Theorem parseOutputByRange_membership {imports : Imports}
        (o : ListCommandsOptions) (output startPattern endPattern : string)
        (token : string) :
  let lines := split output LF in
  let startIndex :=
    findIndex (fun line => includes line startPattern) lines in
  let endIndex := findIndex (fun line => includes line endPattern) lines in
  In token (_parseOutputByRange o output startPattern endPattern)
  <-> (exists (i : nat) (line : string),
          nth_error lines i = Some line
          /\ (startIndex < Z.of_nat i <= endIndex)%Z
          /\ includes line TAB = false
          /\ includes line ALIAS_PREFIX = false
          /\ nth_error (split line "  ") 1 = Some token
          /\ hasValue (Some token) = true)
      /\ (includeHelp o = false ->
          token <> OPTIONS_END_STRING /\ token <> COMMANDS_END_STRING).
Proof.
  intros lines startIndex endIndex.
  assert (Hs : (0 <= startIndex + 1)%Z).
  { pose proof (findIndex_lower (fun line => includes line startPattern)
                                lines). subst startIndex. lia. }
  assert (He : (0 <= endIndex + 1)%Z).
  { pose proof (findIndex_lower (fun line => includes line endPattern)
                                lines). subst endIndex. lia. }
  assert (Hcore :
            In token
               (strings
                  (filter hasValue
                     (map (fun line => nth_error (split line "  ") 1)
                        (filter
                           (fun line =>
                              negb (existsb
                                      (fun filteredString =>
                                         includes line filteredString)
                                      FILTERED_STRINGS))
                           (slice lines (startIndex + 1) (endIndex + 1))))))
            <-> exists (i : nat) (line : string),
                nth_error lines i = Some line
                /\ (startIndex < Z.of_nat i <= endIndex)%Z
                /\ includes line TAB = false
                /\ includes line ALIAS_PREFIX = false
                /\ nth_error (split line "  ") 1 = Some token
                /\ hasValue (Some token) = true).
  { rewrite In_strings, filter_In, in_map_iff. split.
    - intros [[line [Htoken Hline]] Hvalue].
      apply filter_In in Hline. destruct Hline as [Hline Hclean].
      apply (In_slice lines line Hs He) in Hline.
      destruct Hline as [i [Hi Hrange]].
      unfold FILTERED_STRINGS in Hclean. cbn [existsb] in Hclean.
      rewrite orb_false_r in Hclean. apply negb_true_iff in Hclean.
      apply orb_false_iff in Hclean. destruct Hclean as [Htab Halias].
      exists i, line. repeat split; auto; lia.
    - intros [i [line [Hi [Hrange [Htab [Halias [Htoken Hvalue]]]]]]].
      split; [|exact Hvalue]. exists line. split; [exact Htoken|].
      apply filter_In. split.
      + apply (In_slice lines line Hs He). exists i. split; [exact Hi|lia].
      + unfold FILTERED_STRINGS. cbn [existsb]. now rewrite Htab, Halias. }
  unfold _parseOutputByRange. fold lines. fold startIndex. fold endIndex.
  destruct (includeHelp o); cbn [negb].
  - rewrite Hcore. split; [intros H; split; [exact H|discriminate]|tauto].
  - rewrite filter_In, Hcore. split.
    + intros [H Hkeep]. split; [exact H|]. intros _.
      apply andb_true_iff in Hkeep. destruct Hkeep as [H1 H2].
      apply negb_true_iff in H1, H2.
      apply String.eqb_neq in H1, H2. now split.
    + intros [H Hkeep]. split; [exact H|].
      destruct (Hkeep eq_refl) as [H1 H2].
      apply String.eqb_neq in H1, H2. now rewrite H1, H2.
Qed.

(** ** The names of a built descriptor *)

Lemma includes_space_cons (c : ascii) (s : string) :
  includes (String c s) " "
  = (if ascii_dec " " c then true else includes s " ").
Proof.
  cbn [includes String.prefix].
  destruct (ascii_dec " " c); [|reflexivity]. now destruct s.
Qed.

Lemma includes_space_snoc (cur : string) (c : ascii) :
  includes cur " " = false -> " "%char <> c ->
  includes (cur ++ String c EmptyString) " " = false.
Proof.
  intros Hcur Hc. induction cur as [|x cur IH].
  - cbn [append]. rewrite includes_space_cons.
    destruct (ascii_dec " " c); [contradiction|reflexivity].
  - cbn [append]. rewrite includes_space_cons in *.
    destruct (ascii_dec " " x); [discriminate|]. now apply IH.
Qed.

(** The pieces of a split on one space have no space in them. *)
Lemma split_space_pieces (s : string) :
  forall cur : string,
    includes cur " " = false ->
    Forall (fun piece => includes piece " " = false)
           (split_from " " 0 cur s).
Proof.
  induction s as [|c rest IH]; intros cur Hcur;
    cbn [split_from String.prefix].
  - now constructor.
  - destruct (ascii_dec " " c) as [Hc|Hc].
    + replace (String.prefix "" rest) with true by now destruct rest.
      constructor; [exact Hcur|]. now apply IH.
    + apply IH. now apply includes_space_snoc.
Qed.

(** Splitting on one space gives a single piece exactly when the string
    has no space. *)
Lemma split_space_length (s : string) :
  forall cur : string,
    (1 <? List.length (split_from " " 0 cur s))%nat = includes s " ".
Proof.
  induction s as [|c rest IH]; intros cur;
    cbn [split_from String.prefix]; [reflexivity|].
  rewrite includes_space_cons.
  destruct (ascii_dec " " c) as [Hc|Hc]; [|apply IH].
  replace (String.prefix "" rest) with true by now destruct rest.
  cbn [List.length String.length Nat.sub].
  pose proof (@split_from_not_nil " " rest 0%nat EmptyString) as Hrest.
  destruct (split_from " " 0 "" rest); [now elim Hrest|reflexivity].
Qed.

(** The command of a built descriptor never has a space in it, nor has its
    parent; and the descriptor has a parent exactly when the path has a
    space (a path without space is its own command). *)
Theorem buildDto_names_have_no_space (fullCommand : string)
        (options : list string) :
  let dto := _buildDto fullCommand options in
  includes (command dto) " " = false
  /\ match parent dto with
     | Some p => includes p " " = false /\ includes fullCommand " " = true
     | None => includes fullCommand " " = false /\ command dto = fullCommand
     end.
Proof.
  intros dto. subst dto. unfold _buildDto.
  pose proof (split_space_pieces fullCommand EmptyString eq_refl) as Hpieces.
  pose proof (split_space_length fullCommand EmptyString) as Hlength.
  change (split fullCommand " ") with (split_from " " 0 "" fullCommand).
  destruct (1 <? List.length (split_from " " 0 "" fullCommand))%nat eqn:Hnested.
  - apply Nat.ltb_lt in Hnested.
    destruct (two_last _ Hnested) as [init [prev [last Htokens]]].
    rewrite Htokens in *.
    replace (init ++ [prev; last]) with ((init ++ [prev]) ++ [last])
      by now rewrite <- app_assoc.
    rewrite !pop_snoc. cbn [command parent].
    rewrite Forall_forall in Hpieces.
    repeat split; auto; apply Hpieces; apply in_or_app; right; simpl; auto.
  - cbn [command parent]. split; [|now split].
    now rewrite <- Hlength.
Qed.

(** * The deploy commands *)

Import Deploy.

(** Unfolds the steps of a script. *)
Ltac run_script :=
  cbv beta iota zeta
      delta [bind when call ret exit getVars setVars whichTool execute];
  cbn [vars calls].

(** ** and-cli deploy azure-web-app *)

Lemma pushIf_app (condition : bool) (message : string)
      (errors : list string) :
  pushIf condition message errors
  = errors ++ (if condition then [message] else []).
Proof.
  unfold pushIf. destruct condition; [reflexivity|].
  now rewrite app_nil_r.
Qed.

Lemma app_nil_both (A : Type) (xs ys : list A) :
  xs ++ ys = [] <-> xs = [] /\ ys = [].
Proof.
  split; [apply app_eq_nil|]. now intros [-> ->].
Qed.

Lemma lacking_nil (v : option string) (message : string) :
  match v with
  | Some _ => []
  | None => [message]
  end = [] <-> v <> None.
Proof. destruct v; split; congruence. Qed.

(** The errors that the validation collects. *)
Lemma azure_errors (program : AzureWebApp.Program) :
  pushIf
    (isNullish (given (AzureWebApp.p_remote program)))
    "--remote is required"
    (pushIf
       (isNullish (given (AzureWebApp.p_branch program)))
       "--branch is required"
       (pushIf
          (isNullish (given (AzureWebApp.p_resourceGroup program)))
          "--resource-group is required"
          (pushIf
             (isNullish (given (AzureWebApp.p_appName program)))
             "--app-name is required"
             (pushIf
                (isNullish (given (AzureWebApp.p_secret program)))
                "--secret is required"
                (pushIf
                   (isNullish (given (AzureWebApp.p_username program))
                    && (isNullish (given (AzureWebApp.p_clientId program))
                        || isNullish
                             (given (AzureWebApp.p_tenantId program))))
                   "when --client-id or --tenant-id not provided, --username is required"
                   [])))))
  = AzureWebApp.missingArguments program.
Proof.
  rewrite !pushIf_app. unfold AzureWebApp.missingArguments.
  rewrite <- !app_assoc. cbn [app].
  repeat f_equal;
    match goal with
    | |- context [AzureWebApp.p_username] =>
        destruct (AzureWebApp.p_username program),
          (AzureWebApp.p_clientId program),
          (AzureWebApp.p_tenantId program); reflexivity
    | |- context [given ?v] => destruct v; reflexivity
    end.
Qed.

(** The validation reports every missing required argument at once: when
    some argument is missing it echoes the list of their messages, in the
    order of the checks, and ends the process with status 1 before any tool
    is looked up or run; no argument is missing exactly when the secret,
    the application name, the resource group, the branch and the remote are
    given together with a user name or with both a client and a tenant
    id. *)
Theorem azure_validate_reports_missing_arguments {shell : Shell}
        (program : AzureWebApp.Program) (st : State AzureWebApp.Vars) :
  (AzureWebApp.missingArguments program <> [] ->
   AzureWebApp.validateOrExit program st
   = Exit 1
          (mkState (AzureWebApp.readProgram program (vars st))
                   (calls st
                      ++ [echo_errors
                            (AzureWebApp.missingArguments program)])))
  /\ (AzureWebApp.missingArguments program = []
      <-> (AzureWebApp.p_secret program <> None
           /\ AzureWebApp.p_appName program <> None
           /\ AzureWebApp.p_resourceGroup program <> None
           /\ AzureWebApp.p_branch program <> None
           /\ AzureWebApp.p_remote program <> None
           /\ (AzureWebApp.p_username program <> None
               \/ (AzureWebApp.p_clientId program <> None
                   /\ AzureWebApp.p_tenantId program <> None)))).
Proof.
  split.
  - intros Hmissing. unfold AzureWebApp.validateOrExit. run_script.
    rewrite azure_errors.
    destruct (AzureWebApp.missingArguments program); [now elim Hmissing|].
    reflexivity.
  - unfold AzureWebApp.missingArguments.
    rewrite !app_nil_both, !lacking_nil.
    destruct (AzureWebApp.p_username program),
      (AzureWebApp.p_clientId program), (AzureWebApp.p_tenantId program);
      intuition congruence.
Qed.

(** The validation returns (true) exactly when no required argument is
    missing and the Azure CLI is there or pip is there and installs it;
    otherwise it ends the process with status 1.  Either way the variables
    of the script hold what [program] gave. *)
Theorem azure_validate_outcome {shell : Shell}
        (program : AzureWebApp.Program) (st : State AzureWebApp.Vars) :
  match AzureWebApp.validateOrExit program st with
  | Done ok st' =>
      ok = true
      /\ AzureWebApp.missingArguments program = []
      /\ AzureWebApp.azureCliAvailable = true
      /\ vars st' = AzureWebApp.readProgram program (vars st)
  | Exit status st' =>
      status = 1%Z
      /\ (AzureWebApp.missingArguments program <> []
          \/ AzureWebApp.azureCliAvailable = false)
      /\ vars st' = AzureWebApp.readProgram program (vars st)
  end.
Proof.
  unfold AzureWebApp.validateOrExit, AzureWebApp.azureCliAvailable.
  run_script. rewrite azure_errors.
  destruct (AzureWebApp.missingArguments program) as [|message rest].
  - cbn [List.length Nat.ltb Nat.leb].
    destruct (which "az"); cbn [negb orb andb].
    + repeat split.
    + destruct (which "pip"); cbn [negb orb andb].
      * destruct (code (exec "pip install azure-cli") =? 0)%Z;
          cbn [negb]; repeat split; now right.
      * repeat split. now right.
  - cbn. repeat split. left. discriminate.
Qed.

Lemma bind_done (V A B : Type) (m : Step V A) (k : A -> Step V B)
      (st st' : State V) (a : A) :
  m st = Done a st' -> bind m k st = k a st'.
Proof. unfold bind. now intros ->. Qed.

Lemma bind_exit (V A B : Type) (m : Step V A) (k : A -> Step V B)
      (st st' : State V) (status : Z) :
  m st = Exit status st' -> bind m k st = Exit status st'.
Proof. unfold bind. now intros ->. Qed.

(** A run logs out of Azure whenever it logged in: when the validation
    ends the process nothing else happens (no login); otherwise the run
    logs in once, with the user name and the secret when a user name was
    given and with the client id, the tenant id and the secret when not,
    and on every path that follows (the remote cannot be added, the push
    fails, or all succeeds) a logout comes after.  A run that ends the
    process ends it with status 1. *)
Theorem azure_run_logs_out {shell : Shell}
        (program : AzureWebApp.Program) (st : State AzureWebApp.Vars) :
  match AzureWebApp.validateOrExit program st with
  | Exit status st' => AzureWebApp.run program st = Exit status st'
  | Done _ st' =>
      let v := vars st' in
      exists after : list Call,
        calls (stateOf (AzureWebApp.run program st))
        = calls st'
            ++ azure_login
                 (if isNullish (AzureWebApp.username v)
                  then [AzureWebApp.clientId v; AzureWebApp.tenantId v;
                        AzureWebApp.secret v]
                  else [AzureWebApp.username v; AzureWebApp.secret v])
            :: after
        /\ In azure_logout after
        /\ (forall arguments, ~ In (azure_login arguments) after)
        /\ (forall status st'',
               AzureWebApp.run program st = Exit status st'' ->
               status = 1%Z)
  end.
Proof.
  destruct (AzureWebApp.validateOrExit program st) as [ok st1|status st1]
    eqn:Hvalidate; unfold AzureWebApp.run;
    [|apply bind_exit; exact Hvalidate].
  rewrite bind_done with (1 := Hvalidate).
  unfold AzureWebApp.createRemoteIfMissing, AzureWebApp.pushToRemote.
  destruct st1 as [v before]. run_script.
  destruct (isNullish (AzureWebApp.username v)); cbn [negb vars calls];
    repeat match goal with
      | |- context [negb (code (exec ?c) =? 0)%Z] =>
          destruct (code (exec c) =? 0)%Z; cbn [negb vars calls]
      end;
    cbn [stateOf calls vars]; rewrite <- ?app_assoc;
    eexists; (split; [reflexivity|]); cbn [app];
    (split; [simpl; tauto|]);
    (split; [intros arguments; simpl; intuition discriminate|]);
    intros status st'' H; inversion H; reflexivity.
Qed.

Example azure_without_cli_or_pip :
  calls (stateOf (@AzureWebApp.run bareShell
                    (AzureWebApp.mkProgram (Some "app") (Some "main") None
                                           None (Some "azure") (Some "rg")
                                           (Some "pw") None (Some "me"))
                    (mkState AzureWebApp.initialVars [])))
  = [ shell_which "az"
    ; echo_message "Azure CLI not found. Attempting install via PIP..."
    ; shell_which "pip"
    ; echo_error ("PIP is required - " ++ pythonInstallerUrl) ].
Proof. vm_compute. reflexivity. Qed.



(** ** and-cli deploy aws-s3 *)

(** The validation returns (true) exactly when the profile and the
    destination are given, python and pip are found, and the AWS CLI is
    found or pip installs it; otherwise it ends the process with status 1.
    When it returns, the source path is the [--source] given, or else the
    one the script had. *)
Theorem aws_validate_outcome {shell : Shell} (program : AwsS3.Program)
        (st : State AwsS3.Vars) :
  match AwsS3.validateOrExit program st with
  | Done ok st' =>
      ok = true
      /\ AwsS3.p_profile program <> None
      /\ AwsS3.p_destination program <> None
      /\ AwsS3.awsCliAvailable = true
      /\ vars st'
         = AwsS3.mkVars (given (AwsS3.p_destination program))
                        (given (AwsS3.p_profile program))
                        (match AwsS3.p_source program with
                         | Some source => Str source
                         | None => AwsS3.sourcePath (vars st)
                         end)
  | Exit status st' =>
      status = 1%Z
      /\ (AwsS3.p_profile program = None
          \/ AwsS3.p_destination program = None
          \/ AwsS3.awsCliAvailable = false)
  end.
Proof.
  unfold AwsS3.validateOrExit, AwsS3.awsCliAvailable, pushIf.
  run_script.
  destruct (AwsS3.p_profile program) as [prof|];
    destruct (AwsS3.p_destination program) as [dest|];
    cbn [given isNullish app List.length Nat.ltb Nat.leb negb vars calls];
    try (split; [reflexivity|tauto]).
  destruct (which "python"); cbn [negb andb orb vars calls];
    [|split; [reflexivity|tauto]].
  destruct (which "pip"); cbn [negb andb orb vars calls];
    [|split; [reflexivity|tauto]].
  destruct (which "aws"); cbn [negb andb orb vars calls].
  - repeat split; discriminate.
  - destruct (code (exec "pip install awscli==1.16.9") =? 0)%Z;
      cbn [negb vars calls].
    + repeat split; discriminate.
    + split; [reflexivity|tauto].
Qed.


